(** * Sync progress tracker of magento-sales-pulse

    A shallow embedding of
    [supabase/functions/magento-sync/sync_progress.ts]: the two tracker
    entry points [getSyncProgress] and [updateSyncProgress], run against
    an explicit model of the [sync_progress] table, of the clock and of
    the failures the Supabase client can report.

    Conventions of the embedding.
    - A timestamp is the integer number of milliseconds since the epoch
      ([Date.prototype.getTime]); [toISOString] and [new Date(iso)] are
      inverse to each other at that precision, so the column values are
      kept as [Z].
    - [diffMinutes] is a quotient of two integers.  It is kept as an exact
      rational: for millisecond counts below 2^53 the correctly rounded
      double quotient lies on the same side of 15 as the exact one, since
      the closest quotients to 15 are 15 -/+ 1/60000.
    - Every awaited client call either resolves to a [{data, error}]
      object or rejects; which one happens is chosen by the environment of
      the call ([Fault]).
    - [console.log] and [console.error] have no effect on the table or on
      the returned value and are left out. *)

From Stdlib Require Import ZArith QArith List String Bool Lia.
Import ListNotations.

Local Open Scope string_scope.
Local Open Scope list_scope.
Local Open Scope Z_scope.

(** ** Rows of the [sync_progress] table *)

Record Row : Type := mkRow {
  id : nat;
  store_id : string;
  connection_id : string;
  status : string;
  orders_processed : Z;
  total_orders : Z;
  current_page : Z;
  started_at : Z;
  updated_at : Z;
  notes : option string
}.

(** The object handed to [.update(...)]: a column is written when the
    object has the key.  [p_notes] distinguishes an absent key ([None])
    from the key set to [null] ([Some None]). *)
Record Patch : Type := mkPatch {
  p_store_id : option string;
  p_status : option string;
  p_orders_processed : option Z;
  p_total_orders : option Z;
  p_updated_at : option Z;
  p_notes : option (option string)
}.

Definition set_or {A : Type} (o : option A) (old : A) : A :=
  match o with Some v => v | None => old end.

Definition apply_patch (p : Patch) (r : Row) : Row :=
  {| id := id r;
     store_id := set_or (p_store_id p) (store_id r);
     connection_id := connection_id r;
     status := set_or (p_status p) (status r);
     orders_processed := set_or (p_orders_processed p) (orders_processed r);
     total_orders := set_or (p_total_orders p) (total_orders r);
     current_page := current_page r;
     started_at := started_at r;
     updated_at := set_or (p_updated_at p) (updated_at r);
     notes := set_or (p_notes p) (notes r) |}.

(** The object handed to [.insert(...)]: every column but [id], which the
    table assigns. *)
Record NewRow : Type := mkNewRow {
  n_store_id : string;
  n_status : string;
  n_orders_processed : Z;
  n_total_orders : Z;
  n_updated_at : Z;
  n_notes : option string;
  n_connection_id : string;
  n_current_page : Z;
  n_started_at : Z
}.

Definition with_id (i : nat) (n : NewRow) : Row :=
  {| id := i;
     store_id := n_store_id n;
     connection_id := n_connection_id n;
     status := n_status n;
     orders_processed := n_orders_processed n;
     total_orders := n_total_orders n;
     current_page := n_current_page n;
     started_at := n_started_at n;
     updated_at := n_updated_at n;
     notes := n_notes n |}.

(** ** The world the tracker runs in *)

(** The requests sent to the database, in the order they are sent. *)
Inductive Call : Type :=
| QTableExists
| RpcCreateTable
| QLatest (storeId : string)
| QActive (storeId : string)
| WUpdate (rowId : nat)
| WInsert (storeId : string).

Record World : Type := mkWorld {
  clock : Z;
  table : option (list Row);
  calls : list Call
}.

Definition rows_of (w : World) : list Row :=
  match table w with Some rows => rows | None => [] end.

Definition log_call (c : Call) (w : World) : World :=
  {| clock := clock w; table := table w; calls := calls w ++ [c] |}.

Definition set_table (t : option (list Row)) (w : World) : World :=
  {| clock := clock w; table := t; calls := calls w |}.

(** What the environment does to one awaited call. *)
Inductive Fault : Type :=
| Healthy
| Fails (message : string)
| Throws (message : string).

Definition faulty (f : Fault) : bool :=
  match f with Healthy => false | _ => true end.

(** ** Asynchronous computations with exceptions

    A computation threads the world and ends with a value or with a
    thrown [Error], of which only [message] is ever read. *)

Definition Async (A : Type) : Type := World -> World * (A + string).

Definition ret {A : Type} (a : A) : Async A := fun w => (w, inl a).

Definition bind {A B : Type} (m : Async A) (k : A -> Async B) : Async B :=
  fun w =>
    match m w with
    | (w', inl a) => k a w'
    | (w', inr e) => (w', inr e)
    end.

Definition try_catch {A : Type} (body : Async A) (handler : string -> Async A)
  : Async A :=
  fun w =>
    match body w with
    | (w', inl a) => (w', inl a)
    | (w', inr e) => handler e w'
    end.

Declare Scope async_scope.
Delimit Scope async_scope with async.
Notation "x <- m ;; k" := (bind m (fun x => k))
  (at level 61, m at next level, right associativity) : async_scope.
Notation "'try' b 'catch' h" := (try_catch b h)
  (at level 62, b at level 61) : async_scope.
Local Open Scope async_scope.

(** [new Date()]: the clock never runs backwards; [elapsed] is the time
    that went by since it was last read. *)
Definition newDate (elapsed : N) : Async Z :=
  fun w =>
    let t := clock w + Z.of_N elapsed in
    ({| clock := t; table := table w; calls := calls w |}, inl t).

(** ** The Supabase client *)

Record Response (A : Type) : Type := mkResponse {
  resp_data : option A;
  resp_error : option string
}.
Arguments mkResponse {A} _ _.
Arguments resp_data {A} _.
Arguments resp_error {A} _.

Definition is_some {A : Type} (o : option A) : bool :=
  match o with Some _ => true | None => false end.

Definition request {A : Type} (c : Call) (f : Fault)
    (run : World -> World * Response A) : Async (Response A) :=
  fun w =>
    let w1 := log_call c w in
    match f with
    | Healthy => let (w2, r) := run w1 in (w2, inl r)
    | Fails m => (w1, inl (mkResponse None (Some m)))
    | Throws m => (w1, inr m)
    end.

Definition missing_relation : string :=
  "relation public.sync_progress does not exist".

Definition multiple_rows : string :=
  "JSON object requested, multiple (or no) rows returned".

(** [.from('information_schema.tables') ... .maybeSingle()]: one row when
    the table is there, [null] when it is not. *)
Definition tableExistsQuery (f : Fault) : Async (Response unit) :=
  request QTableExists f
    (fun w => (w, mkResponse (if is_some (table w) then Some tt else None) None)).

(** Modelled from the spec: the SQL function behind
    [supabase.rpc('create_sync_progress_table')] is not part of the
    source; section 4.4 of the design requires the provisioning to be
    idempotent, so a table that exists keeps its rows and an absent one
    is created empty. *)
Definition create_sync_progress_table (f : Fault) : Async (Response unit) :=
  request RpcCreateTable f
    (fun w => (set_table (Some (rows_of w)) w, mkResponse None None)).

Definition for_store (storeId : string) (r : Row) : bool :=
  (store_id r =? storeId)%string.

Definition is_active (storeId : string) (r : Row) : bool :=
  for_store storeId r && (status r =? "in_progress")%string.

(** [.order('updated_at', { ascending: false }).limit(1)]: a row with the
    greatest [updated_at]; among equal ones the first of the table. *)
Fixpoint latest (rows : list Row) : option Row :=
  match rows with
  | [] => None
  | r :: rest =>
      match latest rest with
      | Some r' => if updated_at r <? updated_at r' then Some r' else Some r
      | None => Some r
      end
  end.

Definition latest_for (storeId : string) (rows : list Row) : option Row :=
  latest (filter (for_store storeId) rows).

Definition selectLatest (f : Fault) (storeId : string) : Async (Response Row) :=
  request (QLatest storeId) f
    (fun w =>
       match table w with
       | Some rows => (w, mkResponse (latest_for storeId rows) None)
       | None => (w, mkResponse None (Some missing_relation))
       end).

(** [.select('id').eq('store_id', storeId).eq('status', 'in_progress')
    .maybeSingle()]: [maybeSingle] answers with an error when more than
    one row matches. *)
Definition selectActive (f : Fault) (storeId : string) : Async (Response nat) :=
  request (QActive storeId) f
    (fun w =>
       match table w with
       | Some rows =>
           match filter (is_active storeId) rows with
           | [] => (w, mkResponse None None)
           | [r] => (w, mkResponse (Some (id r)) None)
           | _ :: _ :: _ => (w, mkResponse None (Some multiple_rows))
           end
       | None => (w, mkResponse None (Some missing_relation))
       end).

Definition update_rows (i : nat) (p : Patch) (rows : list Row) : list Row :=
  map (fun r => if Nat.eqb (id r) i then apply_patch p r else r) rows.

(** [.update(patch).eq('id', i)] *)
Definition updateById (f : Fault) (i : nat) (p : Patch) : Async (Response unit) :=
  request (WUpdate i) f
    (fun w =>
       match table w with
       | Some rows => (set_table (Some (update_rows i p rows)) w, mkResponse None None)
       | None => (w, mkResponse None (Some missing_relation))
       end).

(** The table assigns the identifier of a new row; any unused one would
    do, the model takes the successor of the greatest one in use. *)
Definition fresh_id (rows : list Row) : nat := S (list_max (map id rows)).

(** [.insert(row)] *)
Definition insertRow (f : Fault) (n : NewRow) : Async (Response unit) :=
  request (WInsert (n_store_id n)) f
    (fun w =>
       match table w with
       | Some rows =>
           (set_table (Some (rows ++ [with_id (fresh_id rows) n])) w, mkResponse None None)
       | None => (w, mkResponse None (Some missing_relation))
       end).

(** ** [getSyncProgress] *)

Record SyncStatus : Type := mkStatus {
  success : bool;
  error : option string;
  inProgress : bool;
  isStale : option bool;
  lastSync : option Row;
  progress : option Row
}.

(** [(now.getTime() - updatedAt.getTime()) / (1000 * 60)] *)
Definition diffMinutes (now updatedAt : Z) : Q :=
  (inject_Z (now - updatedAt) / inject_Z (1000 * 60))%Q.

(** The test [diffMinutes > 15] of the read path. *)
Definition isStaleAt (updatedAt now : Z) : bool :=
  negb (Qle_bool (diffMinutes now updatedAt) (inject_Z 15)).

Definition timeout_notes : string :=
  "Sync timed out after 15 minutes of inactivity".

Definition stale_patch (t : Z) : Patch :=
  {| p_store_id := None;
     p_status := Some "failed";
     p_orders_processed := None;
     p_total_orders := None;
     p_updated_at := Some t;
     p_notes := Some (Some timeout_notes) |}.

(** The environment of one [getSyncProgress] call: the fate of each
    awaited request and the time elapsed before each clock reading. *)
Record GetEnv : Type := mkGetEnv {
  g_tableCheck : Fault;
  g_fetch : Fault;
  g_now : N;
  g_stamp : N;
  g_update : Fault
}.

Definition not_running : SyncStatus :=
  mkStatus true None false None None None.

Definition read_failed (msg : string) : SyncStatus :=
  mkStatus false (Some msg) false None None None.

Definition getSyncProgress (e : GetEnv) (storeId : string) : Async SyncStatus :=
  try
    (chk <- tableExistsQuery (g_tableCheck e) ;;
     if is_some (resp_error chk) then
       ret (read_failed "Could not check if sync_progress table exists")
     else if negb (is_some (resp_data chk)) then
       ret not_running
     else
       res <- selectLatest (g_fetch e) storeId ;;
       match resp_error res with
       | Some msg => ret (read_failed ("Failed to fetch sync progress: " ++ msg)%string)
       | None =>
           match resp_data res with
           | None => ret not_running
           | Some data =>
               let isInProgress := (status data =? "in_progress")%string in
               let current := mkStatus true None isInProgress None None (Some data) in
               if isInProgress then
                 now <- newDate (g_now e) ;;
                 if isStaleAt (updated_at data) now then
                   stamp <- newDate (g_stamp e) ;;
                   _ <- updateById (g_update e) (id data) (stale_patch stamp) ;;
                   ret (mkStatus true None false (Some true) (Some data) None)
                 else ret current
               else ret current
           end
       end)
  catch (fun msg => ret (read_failed ("Failed to get sync progress: " ++ msg)%string)).

(** ** [updateSyncProgress] *)

Record ProgressData : Type := mkProgressData {
  pd_store_id : string;
  pd_status : string;
  pd_orders_processed : Z;
  pd_total_orders : Z;
  pd_updated_at : Z;
  pd_notes : option string
}.

(** [notes || null]: an absent and an empty annotation both become [null]. *)
Definition or_null (notes : option string) : option string :=
  match notes with
  | Some EmptyString => None
  | Some s => Some s
  | None => None
  end.

Definition as_patch (d : ProgressData) : Patch :=
  {| p_store_id := Some (pd_store_id d);
     p_status := Some (pd_status d);
     p_orders_processed := Some (pd_orders_processed d);
     p_total_orders := Some (pd_total_orders d);
     p_updated_at := Some (pd_updated_at d);
     p_notes := Some (pd_notes d) |}.

(** [{ ...progressData, connection_id: 'PLACEHOLDER', current_page: 1,
    started_at: ... }] *)
Definition newProgressData (d : ProgressData) (startedAt : Z) : NewRow :=
  {| n_store_id := pd_store_id d;
     n_status := pd_status d;
     n_orders_processed := pd_orders_processed d;
     n_total_orders := pd_total_orders d;
     n_updated_at := pd_updated_at d;
     n_notes := pd_notes d;
     n_connection_id := "PLACEHOLDER";
     n_current_page := 1;
     n_started_at := startedAt |}.

Record UpdateEnv : Type := mkUpdateEnv {
  u_tableCheck : Fault;
  u_create : Fault;
  u_lookup : Fault;
  u_updated : N;
  u_started : N;
  u_write : Fault
}.

(** The table check and, when it did not find the table, the attempt to
    create it; [false] stands for the [return] statements of that block. *)
Definition ensureTable (e : UpdateEnv) : Async bool :=
  chk <- tableExistsQuery (u_tableCheck e) ;;
  if is_some (resp_error chk) || negb (is_some (resp_data chk)) then
    try
      (created <- create_sync_progress_table (u_create e) ;;
       if is_some (resp_error created) then ret false else ret true)
    catch (fun _ => ret false)
  else ret true.

Definition updateSyncProgress (e : UpdateEnv) (storeId status : string)
    (current total : Z) (notes : option string) : Async unit :=
  try
    (ready <- ensureTable e ;;
     if negb ready then ret tt
     else
       existing <- selectActive (u_lookup e) storeId ;;
       if is_some (resp_error existing) then ret tt
       else
         updatedAt <- newDate (u_updated e) ;;
         let progressData :=
           mkProgressData storeId status current total updatedAt (or_null notes) in
         match resp_data existing with
         | Some existing_id =>
             _ <- updateById (u_write e) existing_id (as_patch progressData) ;;
             ret tt
         | None =>
             startedAt <- newDate (u_started e) ;;
             _ <- insertRow (u_write e) (newProgressData progressData startedAt) ;;
             ret tt
         end)
  catch (fun _ => ret tt).

(** ** The tracker operations of the design

    The sync job that drives the tracker is not part of the source; the
    only write entry point it can call is [updateSyncProgress]. *)

(** Modelled from the spec: [start] of section 4.2, a job announcing
    itself with [status = in_progress] and both counters at 0. *)
Definition start (e : UpdateEnv) (storeId : string) : Async unit :=
  updateSyncProgress e storeId "in_progress" 0 0 None.

(** Modelled from the spec: [report] of section 4.2, a running job
    passing its counters and an optional note. *)
Definition report (e : UpdateEnv) (storeId : string) (current total : Z)
    (notes : option string) : Async unit :=
  updateSyncProgress e storeId "in_progress" current total notes.

(** Modelled from the spec: [finish] of section 4.2, a job passing its
    terminal [outcome] with its last counters. *)
Definition finish (e : UpdateEnv) (storeId outcome : string) (current total : Z)
    (notes : option string) : Async unit :=
  updateSyncProgress e storeId outcome current total notes.

(** A sequence of [start] calls for one store, each in its environment. *)
Fixpoint run_starts (envs : list UpdateEnv) (storeId : string) (w : World) : World :=
  match envs with
  | [] => w
  | e :: rest => run_starts rest storeId (fst (start e storeId w))
  end.

(** ** Predicates on tables and environments *)

Definition unique_ids (rows : list Row) : Prop := NoDup (map id rows).

Definition active_count (storeId : string) (rows : list Row) : nat :=
  List.length (filter (is_active storeId) rows).

Definition all_succeed (e : UpdateEnv) : Prop :=
  u_tableCheck e = Healthy /\ u_create e = Healthy /\
  u_lookup e = Healthy /\ u_write e = Healthy.

(** A write request: an update or an insert. *)
Definition is_write (c : Call) : bool :=
  match c with WUpdate _ | WInsert _ => true | _ => false end.

(** ** Derived notions used in the statements *)

(** The world after the requests of a stale reconciliation, before the
    effect of the update on the table. *)
Definition after_reconcile_requests (e : GetEnv) (storeId : string) (data : Row)
    (w : World) : World :=
  {| clock := clock w + Z.of_N (g_now e) + Z.of_N (g_stamp e);
     table := table w;
     calls := ((calls w ++ [QTableExists]) ++ [QLatest storeId]) ++ [WUpdate (id data)] |}.

Definition reconciled (data : Row) : SyncStatus :=
  mkStatus true None false (Some true) (Some data) None.

(** The result object an awaited update resolves to: [{ error: null }]
    or [{ error: { message } }]. *)
Definition resolved (err : option string) : Fault :=
  match err with None => Healthy | Some m => Fails m end.

(** [progressData] as the call builds it. *)
Definition progressDataOf (e : UpdateEnv) (storeId status : string)
    (current total : Z) (notes : option string) (w : World) : ProgressData :=
  mkProgressData storeId status current total
    (clock w + Z.of_N (u_updated e)) (or_null notes).

(** The row an insert of the call adds to [rows]. *)
Definition inserted_row (e : UpdateEnv) (storeId status : string)
    (current total : Z) (notes : option string) (w : World) : Row :=
  let d := progressDataOf e storeId status current total notes w in
  with_id (fresh_id (rows_of w))
    (newProgressData d (pd_updated_at d + Z.of_N (u_started e))).

(** ** Scenarios

    Concrete tables and environments, used to run the tracker. *)

Definition healthy_update : UpdateEnv :=
  mkUpdateEnv Healthy Healthy Healthy 0 0 Healthy.

(** The clock advances by 5 s before the call reads it. *)
Definition later_update : UpdateEnv :=
  mkUpdateEnv Healthy Healthy Healthy 5000 0 Healthy.

(** The clock advances by 1 ms between the two readings of an insert. *)
Definition ticking_update : UpdateEnv :=
  mkUpdateEnv Healthy Healthy Healthy 0 1 Healthy.

Definition insert_rejected : UpdateEnv :=
  mkUpdateEnv Healthy Healthy Healthy 0 0 (Fails "insert rejected").

Definition create_rejected : UpdateEnv :=
  mkUpdateEnv Healthy (Fails "permission denied") Healthy 0 0 Healthy.

Definition twenty_minutes : N := 1200000.

Definition healthy_read (elapsed : N) : GetEnv :=
  mkGetEnv Healthy Healthy elapsed 0 Healthy.

Definition update_rejected : GetEnv :=
  mkGetEnv Healthy Healthy twenty_minutes 0 (Fails "connection reset").

Definition check_rejected : GetEnv :=
  mkGetEnv (Fails "schema cache") Healthy 0 0 Healthy.

Definition no_table : World := mkWorld 0 None [].

Definition empty_table : World := mkWorld 0 (Some []) [].

Definition running_row : Row :=
  mkRow 1 "store-1" "PLACEHOLDER" "in_progress" 0 0 1 0 0 None.

Definition running : World := mkWorld 0 (Some [running_row]) [].

Definition done_row : Row :=
  mkRow 1 "store-1" "PLACEHOLDER" "completed" 200 200 1 0 0 None.

Definition finished : World := mkWorld 0 (Some [done_row]) [].

(** The table of [running] after a poll, twenty minutes later, has marked
    its row as timed out. *)
Definition timed_out : World :=
  fst (getSyncProgress (healthy_read twenty_minutes) "store-1" running).

(** ** Sequences of tracker calls *)

(** One call of the tracker, with the environment it runs in. *)
Inductive Op : Type :=
| Update (e : UpdateEnv) (storeId status : string) (current total : Z)
    (notes : option string)
| Poll (g : GetEnv) (storeId : string).

Definition run_op (o : Op) (w : World) : World :=
  match o with
  | Update e storeId status current total notes =>
      fst (updateSyncProgress e storeId status current total notes w)
  | Poll g storeId => fst (getSyncProgress g storeId w)
  end.

Fixpoint run_ops (ops : list Op) (w : World) : World :=
  match ops with
  | [] => w
  | o :: rest => run_ops rest (run_op o w)
  end.

(** The columns no tracker call writes after the insert. *)
Definition same_origin (r r' : Row) : Prop :=
  id r' = id r /\ started_at r' = started_at r /\
  connection_id r' = connection_id r /\ current_page r' = current_page r.

Definition reads_succeed (g : GetEnv) : Prop :=
  g_tableCheck g = Healthy /\ g_fetch g = Healthy.

(** The requests a call added to the log. *)
Definition sent_by (before after : World) (tail : list Call) : Prop :=
  calls after = calls before ++ tail.

(** ** [recordSyncHistory] *)

(** The object inserted into [sync_history]. *)
Record HistoryEntry : Type := mkHistoryEntry {
  h_store_id : string;
  orders_synced : Z;
  products_synced : Z;
  sync_date : Z;
  h_status : string;
  error_message : option string
}.

Record HistoryWorld : Type := mkHistoryWorld {
  h_clock : Z;
  sync_history : list HistoryEntry
}.

(** [supabase.from('sync_history').insert(entry)] *)
Definition insertHistory (f : Fault) (entry : HistoryEntry) (h : HistoryWorld)
  : HistoryWorld * (Response unit + string) :=
  match f with
  | Healthy =>
      ({| h_clock := h_clock h; sync_history := sync_history h ++ [entry] |},
       inl (mkResponse None None))
  | Fails m => (h, inl (mkResponse None (Some m)))
  | Throws m => (h, inr m)
  end.

(** The body of the [try] block reads the clock, builds the entry and
    awaits the insert; an error result and a caught exception are both
    logged and the function returns. *)
Definition recordSyncHistory (elapsed : N) (f : Fault) (storeId : string)
    (ordersCount productsCount : Z) (status : string) (err : option string)
    (h : HistoryWorld) : HistoryWorld * (unit + string) :=
  let now := h_clock h + Z.of_N elapsed in
  let syncHistoryData :=
    mkHistoryEntry storeId ordersCount productsCount now status (or_null err) in
  match insertHistory f syncHistoryData
          {| h_clock := now; sync_history := sync_history h |} with
  | (h', inl response) =>
      match resp_error response with
      | Some _ => (h', inl tt)
      | None => (h', inl tt)
      end
  | (h', inr _) => (h', inl tt)
  end.

(** One call of [recordSyncHistory] with its environment. *)
Record HistoryCall : Type := mkHistoryCall {
  hc_elapsed : N;
  hc_fault : Fault;
  hc_store : string;
  hc_orders : Z;
  hc_products : Z;
  hc_status : string;
  hc_error : option string
}.

Definition run_history_call (c : HistoryCall) (h : HistoryWorld) : HistoryWorld :=
  fst (recordSyncHistory (hc_elapsed c) (hc_fault c) (hc_store c) (hc_orders c)
         (hc_products c) (hc_status c) (hc_error c) h).

Fixpoint run_history (cs : list HistoryCall) (h : HistoryWorld) : HistoryWorld :=
  match cs with
  | [] => h
  | c :: rest => run_history rest (run_history_call c h)
  end.

Definition succeeded (c : HistoryCall) : bool := negb (faulty (hc_fault c)).

(** The entry a call inserts when its insert succeeds, and an entry
    without its date. *)
Definition entry_of (c : HistoryCall) (date : Z) : HistoryEntry :=
  mkHistoryEntry (hc_store c) (hc_orders c) (hc_products c) date (hc_status c)
    (or_null (hc_error c)).

Definition undated (x : HistoryEntry) : string * Z * Z * string * option string :=
  (h_store_id x, orders_synced x, products_synced x, h_status x, error_message x).

(** ** The product page, [src/pages/Products.tsx]

    The state of the component and the values it derives from it on each
    render.  [toLowerCase] and [includes] are the string methods of the
    engine and are parameters of the filter; the two [Math.random]
    expressions of the loader are drawn by the environment. *)

Module Products.

(** A row as [fetchProductData] returns it. *)
Record ProductData : Type := mkProductData {
  pd_id : string;
  pd_name : string;
  pd_sku : option string;
  pd_price : option Q;
  pd_in_stock : bool;
  pd_image_url : option string;
  pd_store : string
}.

(** The values of [Math.floor(Math.random() * 150)] and of
    [Math.random() > 0.5] for one product. *)
Record Draw : Type := mkDraw {
  drawn_sold : Z;
  drawn_up : bool
}.

Record Product : Type := mkProduct {
  id : string;
  name : string;
  sku : string;
  price : Q;
  stock : string;
  sold : Z;
  trend : string;
  image : string;
  storeId : string;
  storeView : string;
  customerGroup : string
}.

(** [s || fallback] on a string that may be missing. *)
Definition or_string (s : option string) (fallback : string) : string :=
  match s with
  | Some EmptyString => fallback
  | Some v => v
  | None => fallback
  end.

(** [product.price || 0] *)
Definition or_zero (q : option Q) : Q :=
  match q with
  | Some v => if Qeq_bool v 0 then 0%Q else v
  | None => 0%Q
  end.

Definition formatProduct (product : ProductData) (d : Draw) : Product :=
  {| id := pd_id product;
     name := pd_name product;
     sku := or_string (pd_sku product) "N/A";
     price := or_zero (pd_price product);
     stock := if pd_in_stock product then "In Stock" else "Out of Stock";
     sold := drawn_sold d;
     trend := if drawn_up d then "up" else "down";
     image := or_string (pd_image_url product) "/placeholder.svg";
     storeId := pd_store product;
     storeView := "DK Website";
     customerGroup := "Retail" |}.

Definition formattedProducts (data : list (ProductData * Draw)) : list Product :=
  map (fun x => formatProduct (fst x) (snd x)) data.

Inductive SortDirection : Type := asc | desc.

Record State : Type := mkState {
  selectedStoreView : string;
  selectedCustomerGroup : string;
  sortColumn : string;
  sortDirection : SortDirection;
  searchQuery : string;
  products : list Product;
  isLoading : bool
}.

(** The state of the first render. *)
Definition initial : State :=
  mkState "Alle" "Alle" "" asc "" [] true.

Section Filter.

Variable toLowerCase : string -> string.
Variable includes : string -> string -> bool.

(** The predicate given to [products.filter]. *)
Definition keeps (st : State) (product : Product) : bool :=
  let storeViewMatch :=
    (selectedStoreView st =? "Alle")%string ||
    (storeView product =? selectedStoreView st)%string in
  let customerGroupMatch :=
    (selectedCustomerGroup st =? "Alle")%string ||
    (customerGroup product =? selectedCustomerGroup st)%string in
  let searchMatch :=
    (searchQuery st =? "")%string ||
    includes (toLowerCase (name product)) (toLowerCase (searchQuery st)) ||
    includes (toLowerCase (sku product)) (toLowerCase (searchQuery st)) in
  storeViewMatch && customerGroupMatch && searchMatch.

Definition filteredProducts (st : State) : list Product :=
  filter (keeps st) (products st).

End Filter.

Definition handleSort (column : string) (st : State) : State :=
  if (sortColumn st =? column)%string then
    mkState (selectedStoreView st) (selectedCustomerGroup st) (sortColumn st)
      (match sortDirection st with asc => desc | desc => asc end)
      (searchQuery st) (products st) (isLoading st)
  else
    mkState (selectedStoreView st) (selectedCustomerGroup st) column asc
      (searchQuery st) (products st) (isLoading st).

(** The two setters of the select boxes and the one of the search box. *)
Definition setSelectedStoreView (v : string) (st : State) : State :=
  mkState v (selectedCustomerGroup st) (sortColumn st) (sortDirection st)
    (searchQuery st) (products st) (isLoading st).

Definition setSelectedCustomerGroup (v : string) (st : State) : State :=
  mkState (selectedStoreView st) v (sortColumn st) (sortDirection st)
    (searchQuery st) (products st) (isLoading st).

Definition setSearchQuery (v : string) (st : State) : State :=
  mkState (selectedStoreView st) (selectedCustomerGroup st) (sortColumn st)
    (sortDirection st) v (products st) (isLoading st).

(** The state after the loader has resolved: [setProducts] then the
    [finally] block. *)
Definition loaded (data : list (ProductData * Draw)) (st : State) : State :=
  mkState (selectedStoreView st) (selectedCustomerGroup st) (sortColumn st)
    (sortDirection st) (searchQuery st) (formattedProducts data) false.

(** The three tiles of the statistics card. *)
Definition totalProducts (st : State) : nat := List.length (products st).

Definition trendingUp (st : State) : nat :=
  List.length (filter (fun p => (trend p =? "up")%string) (products st)).

Definition outOfStock (st : State) : nat :=
  List.length (filter (fun p => (stock p =? "Out of Stock")%string) (products st)).

End Products.

(** A fetched catalogue and two string functions to run the page with. *)
Module ProductsScenario.

Import Products.

Definition lamp : ProductData :=
  mkProductData "p1" "Lamp" None None false None "store-1".

Definition chair : ProductData :=
  mkProductData "p2" "Chair" (Some "CH-1") (Some (499 # 1)%Q) true None "store-1".

Definition fetched : list (ProductData * Draw) :=
  [(lamp, mkDraw 12 true); (chair, mkDraw 3 false)].

Definition verbatim (s : string) : string := s.

Definition is_prefix (s q : string) : bool := String.prefix q s.

End ProductsScenario.

(** * Staleness policy *)

Lemma isStaleAt_iff (updatedAt now : Z) :
  isStaleAt updatedAt now = true <-> 900000 < now - updatedAt.
Proof.
  unfold isStaleAt, diffMinutes.
  rewrite negb_true_iff, <- not_true_iff_false, Qle_bool_iff.
  unfold Qle, Qdiv, Qmult, Qinv, inject_Z; simpl.
  lia.
Qed.

(** C5. A record is judged stale exactly when [now - updatedAt] exceeds
    15 minutes, that is 900000 ms: the test of [getSyncProgress] is false
    at an age of exactly 900 s and true one millisecond later. *)
Theorem staleness_boundary :
  (forall updatedAt now : Z,
      isStaleAt updatedAt now = true <-> 15 * 60 * 1000 < now - updatedAt) /\
  (forall updatedAt : Z, isStaleAt updatedAt (updatedAt + 900 * 1000) = false) /\
  (forall updatedAt : Z, isStaleAt updatedAt (updatedAt + 900 * 1000 + 1) = true).
Proof.
  split; [| split].
  - intros u n. apply isStaleAt_iff.
  - intros u. apply not_true_iff_false. rewrite isStaleAt_iff. lia.
  - intros u. apply isStaleAt_iff. lia.
Qed.

(** * The read path *)

Arguments latest_for : simpl never.
Arguments isStaleAt : simpl never.
Arguments update_rows : simpl never.
Arguments fresh_id : simpl never.

(** The most recent row of a store is one of its rows and no row of the
    store is more recent. *)
Lemma latest_spec (rows : list Row) (r : Row) :
  latest rows = Some r ->
  In r rows /\ forall r', In r' rows -> updated_at r' <= updated_at r.
Proof.
  revert r. induction rows as [| a rest IH]; intros r H; simpl in H.
  - discriminate.
  - destruct (latest rest) as [b |] eqn:Hb.
    + destruct (IH b eq_refl) as [Hin Hmax].
      destruct (updated_at a <? updated_at b) eqn:Hlt; inversion H; subst r.
      * apply Z.ltb_lt in Hlt. split; [now right |].
        intros r' [<- | Hr']; [lia | now apply Hmax].
      * apply Z.ltb_ge in Hlt. split; [now left |].
        intros r' [<- | Hr']; [lia |]. specialize (Hmax r' Hr'). lia.
    + inversion H; subst r. split; [now left |].
      intros r' [<- | Hr']; [lia |].
      destruct rest; [destruct Hr' | simpl in Hb].
      destruct (latest rest); [destruct (_ <? _) |]; discriminate.
Qed.

Lemma latest_for_spec (storeId : string) (rows : list Row) (r : Row) :
  latest_for storeId rows = Some r ->
  In r rows /\ store_id r = storeId /\
  forall r', In r' rows -> store_id r' = storeId -> updated_at r' <= updated_at r.
Proof.
  unfold latest_for. intros H. apply latest_spec in H as [Hin Hmax].
  apply filter_In in Hin as [Hin Hs]. unfold for_store in Hs.
  apply String.eqb_eq in Hs. repeat split; trivial.
  intros r' Hr' Hs'. apply Hmax, filter_In. split; trivial.
  unfold for_store. now apply String.eqb_eq.
Qed.

Lemma latest_none (rows : list Row) : latest rows = None -> rows = [].
Proof.
  destruct rows as [| a rest]; [reflexivity | simpl].
  destruct (latest rest); [destruct (_ <? _) |]; discriminate.
Qed.

Lemma Row_eq_dec (a b : Row) : {a = b} + {a <> b}.
Proof.
  decide equality;
    try apply Z.eq_dec; try apply string_dec; try apply Nat.eq_dec.
  decide equality. apply string_dec.
Qed.

(** A row of the store that is strictly more recent than every other row
    of the store is the one fetched, whatever the order of the table. *)
Lemma latest_for_strict (storeId : string) (rows : list Row) (data : Row) :
  In data rows ->
  store_id data = storeId ->
  (forall r, In r rows -> store_id r = storeId -> r <> data ->
             updated_at r < updated_at data) ->
  latest_for storeId rows = Some data.
Proof.
  intros Hin Hs Hmax.
  destruct (latest_for storeId rows) as [x |] eqn:Hx.
  - destruct (latest_for_spec storeId rows x Hx) as (Hxin & Hxs & Hxmax).
    destruct (Row_eq_dec x data) as [-> | Hne]; [reflexivity |].
    specialize (Hmax x Hxin Hxs Hne). specialize (Hxmax data Hin Hs). lia.
  - unfold latest_for in Hx. apply latest_none in Hx.
    assert (Hf : In data (filter (for_store storeId) rows)).
    { apply filter_In. split; [exact Hin |]. unfold for_store.
      now apply String.eqb_eq. }
    rewrite Hx in Hf. destruct Hf.
Qed.

Lemma latest_for_no_record (storeId : string) (rows : list Row) :
  (forall r, In r rows -> store_id r <> storeId) ->
  latest_for storeId rows = None.
Proof.
  intros H. unfold latest_for.
  replace (filter (for_store storeId) rows) with (@nil Row); [reflexivity |].
  symmetry. induction rows as [| a rest IH]; [reflexivity | simpl].
  unfold for_store at 1. destruct (String.eqb_spec (store_id a) storeId) as [E | _].
  - exfalso. apply (H a); [now left | exact E].
  - apply IH. intros r Hr. apply H. now right.
Qed.

(** The run of [getSyncProgress] on a store whose most recent row is a
    stale [in_progress] one, both reads succeeding. *)
Lemma getSyncProgress_stale (e : GetEnv) (storeId : string) (w : World)
    (rows : list Row) (data : Row) :
  g_tableCheck e = Healthy ->
  g_fetch e = Healthy ->
  table w = Some rows ->
  latest_for storeId rows = Some data ->
  status data = "in_progress" ->
  isStaleAt (updated_at data) (clock w + Z.of_N (g_now e)) = true ->
  getSyncProgress e storeId w =
    let w' := after_reconcile_requests e storeId data w in
    match g_update e with
    | Healthy =>
        (set_table (Some (update_rows (id data) (stale_patch (clock w')) rows)) w',
         inl (reconciled data))
    | Fails _ => (w', inl (reconciled data))
    | Throws m => (w', inl (read_failed ("Failed to get sync progress: " ++ m)%string))
    end.
Proof.
  intros Hc Hf Ht Hl Hs Hstale.
  destruct w as [c t l]; simpl in Ht, Hstale; subst t.
  unfold getSyncProgress, try_catch, bind, tableExistsQuery, selectLatest, request.
  rewrite Hc, Hf. simpl. rewrite Hl, Hs. simpl. rewrite Hstale.
  unfold updateById, request, after_reconcile_requests, reconciled.
  destruct (g_update e); reflexivity.
Qed.

(** The run on a store whose most recent row is [in_progress] and not
    stale: the row is reported as running and nothing is written. *)
Lemma getSyncProgress_fresh (e : GetEnv) (storeId : string) (w : World)
    (rows : list Row) (data : Row) :
  g_tableCheck e = Healthy ->
  g_fetch e = Healthy ->
  table w = Some rows ->
  latest_for storeId rows = Some data ->
  status data = "in_progress" ->
  isStaleAt (updated_at data) (clock w + Z.of_N (g_now e)) = false ->
  snd (getSyncProgress e storeId w)
    = inl (mkStatus true None true None None (Some data)) /\
  table (fst (getSyncProgress e storeId w)) = Some rows.
Proof.
  intros Hc Hf Ht Hl Hs Hfresh.
  destruct w as [c t l]; simpl in Ht, Hfresh; subst t.
  unfold getSyncProgress, try_catch, bind, tableExistsQuery, selectLatest, request.
  rewrite Hc, Hf. simpl. rewrite Hl, Hs. simpl. rewrite Hfresh.
  split; reflexivity.
Qed.

Lemma getSyncProgress_returns (e : GetEnv) (storeId : string) (w : World) :
  exists res, snd (getSyncProgress e storeId w) = inl res.
Proof.
  destruct w as [c t l], e as [fc ff n s fu].
  unfold getSyncProgress, try_catch, bind, tableExistsQuery, selectLatest,
    updateById, request; simpl.
  destruct fc; simpl; eauto.
  destruct t as [rows |]; simpl; eauto.
  destruct ff; simpl; eauto.
  destruct (latest_for storeId rows) as [data |]; simpl; eauto.
  destruct (status data =? "in_progress")%string; simpl; eauto.
  destruct (isStaleAt _ _); simpl; eauto.
  destruct fu; simpl; eauto.
Qed.

(** The read path on an absent table: one request, no provisioning. *)
Lemma getSyncProgress_absent (e : GetEnv) (storeId : string) (w : World) :
  g_tableCheck e = Healthy ->
  table w = None ->
  getSyncProgress e storeId w = (log_call QTableExists w, inl not_running).
Proof.
  intros Hc Ht. destruct w as [c t l]; simpl in Ht; subst t.
  unfold getSyncProgress, try_catch, bind, tableExistsQuery, request.
  rewrite Hc. reflexivity.
Qed.

Lemma update_rows_In (i : nat) (p : Patch) (rows : list Row) (r : Row) :
  In r rows -> id r = i -> In (apply_patch p r) (update_rows i p rows).
Proof.
  intros Hin Hid. unfold update_rows.
  apply in_map_iff. exists r. split; [| exact Hin].
  rewrite Hid, Nat.eqb_refl. reflexivity.
Qed.

Lemma update_rows_hit (i : nat) (p : Patch) (rows : list Row) (r' : Row) :
  In r' (update_rows i p rows) -> id r' = i ->
  exists r, In r rows /\ id r = i /\ r' = apply_patch p r.
Proof.
  unfold update_rows. intros Hin Hid.
  apply in_map_iff in Hin as (r & Hr & Hin).
  destruct (Nat.eqb_spec (id r) i) as [E | NE].
  - exists r. auto.
  - subst r'. contradiction.
Qed.

(** C1 (amended). When the table check and the fetch succeed, the most
    recently updated row of the store is [in_progress] and stale, and the
    update request succeeds, [getSyncProgress] answers
    [inProgress = false] with the stale flag set, and afterwards the row
    with that identifier is [failed] and annotated with the time-out
    note, its other columns but [updated_at] being kept. *)
Theorem self_healing_read (e : GetEnv) (storeId : string) (w : World)
    (rows : list Row) (data : Row) :
  g_tableCheck e = Healthy ->
  g_fetch e = Healthy ->
  g_update e = Healthy ->
  table w = Some rows ->
  latest_for storeId rows = Some data ->
  status data = "in_progress" ->
  isStaleAt (updated_at data) (clock w + Z.of_N (g_now e)) = true ->
  let run := getSyncProgress e storeId w in
  (exists res, snd run = inl res /\ success res = true /\
               inProgress res = false /\ isStale res = Some true) /\
  In (apply_patch (stale_patch (clock (fst run))) data) (rows_of (fst run)) /\
  (forall r, In r (rows_of (fst run)) -> id r = id data ->
             status r = "failed" /\ notes r = Some timeout_notes).
Proof.
  intros Hc Hf Hu Ht Hl Hs Hstale run. subst run.
  rewrite (getSyncProgress_stale e storeId w rows data Hc Hf Ht Hl Hs Hstale).
  rewrite Hu. cbv zeta. unfold rows_of. simpl.
  split; [| split].
  - exists (reconciled data). repeat split.
  - apply update_rows_In; [| reflexivity].
    now apply (latest_for_spec storeId rows data).
  - intros r Hin Hid.
    destruct (update_rows_hit _ _ _ _ Hin Hid) as (r0 & _ & _ & ->).
    split; reflexivity.
Qed.

(** When the update request throws instead, the catch-all of
    [getSyncProgress] answers with a failed read. *)
Lemma getSyncProgress_stale_exception (e : GetEnv) (storeId : string) (w : World)
    (rows : list Row) (data : Row) (m : string) :
  g_tableCheck e = Healthy ->
  g_fetch e = Healthy ->
  table w = Some rows ->
  latest_for storeId rows = Some data ->
  status data = "in_progress" ->
  isStaleAt (updated_at data) (clock w + Z.of_N (g_now e)) = true ->
  g_update e = Throws m ->
  snd (getSyncProgress e storeId w)
    = inl (read_failed ("Failed to get sync progress: " ++ m)%string) /\
  table (fst (getSyncProgress e storeId w)) = Some rows.
Proof.
  intros Hc Hf Ht Hl Hs Hstale Hu.
  rewrite (getSyncProgress_stale e storeId w rows data Hc Hf Ht Hl Hs Hstale).
  rewrite Hu. cbv zeta. simpl. auto.
Qed.

(** C10. Whatever result object the failed-marking update resolves to,
    with an error or without, a detected stale [in_progress] row makes
    [getSyncProgress] answer [success = true], [inProgress = false], the
    stale flag, and as [lastSync] the row as it was read before the
    update, still [in_progress]; when the update resolves to an error the
    table is left as it was, so the row stays [in_progress] in the store
    while the answer reports the reconciliation. *)
Theorem stale_result_ignores_write (e : GetEnv) (storeId : string) (w : World)
    (rows : list Row) (data : Row) (err : option string) :
  g_tableCheck e = Healthy ->
  g_fetch e = Healthy ->
  table w = Some rows ->
  latest_for storeId rows = Some data ->
  status data = "in_progress" ->
  isStaleAt (updated_at data) (clock w + Z.of_N (g_now e)) = true ->
  g_update e = resolved err ->
  let run := getSyncProgress e storeId w in
  exists res,
    snd run = inl res /\
    success res = true /\ inProgress res = false /\ isStale res = Some true /\
    lastSync res = Some data /\
    (forall r, lastSync res = Some r -> status r = "in_progress") /\
    (err <> None -> table (fst run) = Some rows).
Proof.
  intros Hc Hf Ht Hl Hs Hstale Hu run. subst run.
  rewrite (getSyncProgress_stale e storeId w rows data Hc Hf Ht Hl Hs Hstale).
  rewrite Hu. cbv zeta.
  exists (reconciled data).
  assert (Hlast : forall r, lastSync (reconciled data) = Some r ->
                            status r = "in_progress").
  { intros r [= <-]. exact Hs. }
  destruct err as [m |]; simpl.
  - repeat (split; [reflexivity |]). split; [exact Hlast |].
    intros _. exact Ht.
  - repeat (split; [reflexivity |]). split; [exact Hlast |].
    intros H. now contradiction H.
Qed.

(** C7. A [getSyncProgress] call one of whose reads fails (the table
    check, or the fetch of the latest row once the table was found),
    by an error result or by an exception, answers [success = false] and
    [inProgress = false]; and a call for a store without any row answers
    [inProgress = false]. *)
Theorem getStatus_error_surfacing (e : GetEnv) (storeId : string) (w : World) :
  (faulty (g_tableCheck e) = true \/
   (g_tableCheck e = Healthy /\ is_some (table w) = true /\
    faulty (g_fetch e) = true) ->
   exists res, snd (getSyncProgress e storeId w) = inl res /\
               success res = false /\ inProgress res = false) /\
  ((forall r, In r (rows_of w) -> store_id r <> storeId) ->
   exists res, snd (getSyncProgress e storeId w) = inl res /\
               inProgress res = false).
Proof.
  destruct w as [c t l], e as [fc ff n s fu].
  unfold getSyncProgress, try_catch, bind, tableExistsQuery, selectLatest,
    request, rows_of; simpl.
  split.
  - intros [Hc | (Hc & Ht & Hf)].
    + destruct fc; [discriminate | |]; simpl; eexists; repeat split.
    + subst fc. destruct t as [rows |]; [| discriminate]. simpl.
      destruct ff; [discriminate | |]; simpl; eexists; repeat split.
  - intros Hnone.
    destruct fc; simpl; [| eexists; repeat split ..].
    destruct t as [rows |]; simpl; [| eexists; repeat split].
    destruct ff; simpl; [| eexists; repeat split ..].
    rewrite (latest_for_no_record storeId rows Hnone). simpl.
    eexists; repeat split.
Qed.

(** * The write path *)

Ltac run_update :=
  unfold updateSyncProgress, ensureTable, try_catch, bind, tableExistsQuery,
    create_sync_progress_table, selectActive, updateById, insertRow, newDate,
    request, inserted_row, progressDataOf, rows_of;
  simpl.

(** Every call returns normally, and does one of three things to the
    table: nothing, an update of the one active row of the store, or an
    insert when the store has no active row. *)
Lemma updateSyncProgress_cases (e : UpdateEnv) (storeId status : string)
    (current total : Z) (notes : option string) (w : World) :
  let run := updateSyncProgress e storeId status current total notes w in
  let d := progressDataOf e storeId status current total notes w in
  snd run = inl tt /\
  (rows_of (fst run) = rows_of w \/
   (exists r, filter (is_active storeId) (rows_of w) = [r] /\
              rows_of (fst run) = update_rows (id r) (as_patch d) (rows_of w)) \/
   (filter (is_active storeId) (rows_of w) = [] /\
    rows_of (fst run) =
      rows_of w ++ [inserted_row e storeId status current total notes w])).
Proof.
  destruct w as [c t l], e as [fc fr fl n1 n2 fw].
  run_update.
  destruct fc, t as [rows |], fr, fl; simpl; auto;
    try (destruct (filter (is_active storeId) rows) as [| r [| r' rest]] eqn:Hact;
         simpl; auto;
         destruct fw; simpl; auto;
         split; trivial; right; eauto);
    try (destruct fw; simpl; auto).
Qed.

(** The run of a call all of whose requests succeed. *)
Lemma updateSyncProgress_healthy (e : UpdateEnv) (storeId status : string)
    (current total : Z) (notes : option string) (w : World) :
  all_succeed e ->
  let run := updateSyncProgress e storeId status current total notes w in
  let d := progressDataOf e storeId status current total notes w in
  let provisioning := if is_some (table w) then [] else [RpcCreateTable] in
  match filter (is_active storeId) (rows_of w) with
  | [] =>
      rows_of (fst run) =
        rows_of w ++ [inserted_row e storeId status current total notes w] /\
      calls (fst run) =
        calls w ++ QTableExists :: provisioning ++ [QActive storeId; WInsert storeId]
  | [r] =>
      rows_of (fst run) = update_rows (id r) (as_patch d) (rows_of w) /\
      calls (fst run) =
        calls w ++ QTableExists :: provisioning ++ [QActive storeId; WUpdate (id r)]
  | _ :: _ :: _ =>
      rows_of (fst run) = rows_of w /\
      calls (fst run) = calls w ++ QTableExists :: provisioning ++ [QActive storeId]
  end.
Proof.
  intros (Hc & Hr & Hl & Hw).
  destruct w as [c t l], e as [fc fr fl n1 n2 fw]. simpl in Hc, Hr, Hl, Hw.
  subst fc fr fl fw. run_update.
  destruct t as [rows |]; simpl.
  - destruct (filter (is_active storeId) rows) as [| r [| r' rest]]; simpl;
      rewrite <- ?app_assoc; split; reflexivity.
  - rewrite <- ?app_assoc. split; reflexivity.
Qed.

(** ** Identifiers *)

Lemma fresh_id_unused (rows : list Row) : ~ In (fresh_id rows) (map id rows).
Proof.
  unfold fresh_id. intros Hin.
  assert (H : Forall (fun k => (k <= list_max (map id rows))%nat) (map id rows))
    by (apply list_max_le; apply Nat.le_refl).
  rewrite Forall_forall in H. specialize (H _ Hin). lia.
Qed.

Lemma update_rows_ids (i : nat) (p : Patch) (rows : list Row) :
  map id (update_rows i p rows) = map id rows.
Proof.
  unfold update_rows. rewrite map_map. apply map_ext.
  intros r. now destruct (Nat.eqb (id r) i).
Qed.

Lemma update_rows_length (i : nat) (p : Patch) (rows : list Row) :
  List.length (update_rows i p rows) = List.length rows.
Proof. unfold update_rows. apply length_map. Qed.

Lemma update_rows_miss (i : nat) (p : Patch) (rows : list Row) :
  ~ In i (map id rows) -> update_rows i p rows = rows.
Proof.
  unfold update_rows. induction rows as [| a rest IH]; intros H; simpl.
  - reflexivity.
  - destruct (Nat.eqb_spec (id a) i) as [E | _].
    + exfalso. apply H. now left.
    + f_equal. apply IH. intros Hin. apply H. now right.
Qed.

(** With unique identifiers an update by [id] rewrites one row in place. *)
Lemma update_rows_split (p : Patch) (l1 l2 : list Row) (r : Row) :
  unique_ids (l1 ++ r :: l2) ->
  update_rows (id r) p (l1 ++ r :: l2) = l1 ++ apply_patch p r :: l2.
Proof.
  unfold unique_ids. rewrite map_app. simpl. intros Hnd.
  apply NoDup_remove_2 in Hnd.
  assert (H1 : ~ In (id r) (map id l1)) by (intros H; apply Hnd, in_or_app; now left).
  assert (H2 : ~ In (id r) (map id l2)) by (intros H; apply Hnd, in_or_app; now right).
  change (update_rows (id r) p (l1 ++ r :: l2))
    with (map (fun x => if Nat.eqb (id x) (id r) then apply_patch p x else x)
              (l1 ++ r :: l2)).
  rewrite map_app. simpl. rewrite Nat.eqb_refl.
  fold (update_rows (id r) p l1). fold (update_rows (id r) p l2).
  now rewrite !update_rows_miss.
Qed.

Lemma filter_singleton {A : Type} (f : A -> bool) (l : list A) (x : A) :
  filter f l = [x] ->
  exists l1 l2, l = l1 ++ x :: l2 /\ filter f l1 = [] /\ filter f l2 = [] /\
                f x = true.
Proof.
  induction l as [| a rest IH]; simpl; [discriminate |].
  destruct (f a) eqn:Fa.
  - intros [= -> Hrest]. exists [], rest. auto.
  - intros H. destruct (IH H) as (l1 & l2 & -> & H1 & H2 & Fx).
    exists (a :: l1), l2. simpl. rewrite Fa. auto.
Qed.

(** ** At most one active row per store *)

Lemma active_count_app (s : string) (l1 l2 : list Row) :
  active_count s (l1 ++ l2) = (active_count s l1 + active_count s l2)%nat.
Proof. unfold active_count. now rewrite filter_app, length_app. Qed.

Lemma active_count_cons (s : string) (r : Row) (l : list Row) :
  active_count s (r :: l) =
    ((if is_active s r then 1 else 0) + active_count s l)%nat.
Proof. unfold active_count. simpl. now destruct (is_active s r). Qed.

Lemma is_active_other_store (s s' : string) (r : Row) :
  store_id r = s -> s' <> s -> is_active s' r = false.
Proof.
  intros <- Hne. unfold is_active, for_store.
  destruct (String.eqb_spec (store_id r) s'); [congruence | reflexivity].
Qed.

Lemma is_active_store (s : string) (r : Row) :
  is_active s r = true -> store_id r = s.
Proof.
  unfold is_active, for_store. intros H.
  apply andb_true_iff in H as [H _]. now apply String.eqb_eq.
Qed.

(** Updating the one active row of store [s] with the data of a call for
    [s] changes the number of active rows of no other store and leaves at
    most one for [s]. *)
Lemma update_active_count (s : string) (d : ProgressData) (rows : list Row)
    (r : Row) (s' : string) :
  unique_ids rows ->
  filter (is_active s) rows = [r] ->
  pd_store_id d = s ->
  (active_count s' (update_rows (id r) (as_patch d) rows)
   <= Nat.max (active_count s' rows) (if String.eqb s' s then 1 else 0))%nat.
Proof.
  intros Hu Hf Hd.
  destruct (filter_singleton _ _ _ Hf) as (l1 & l2 & -> & H1 & H2 & Hr).
  rewrite update_rows_split by exact Hu.
  rewrite !active_count_app, !active_count_cons.
  destruct (String.eqb_spec s' s) as [-> | Hne].
  - assert (E1 : active_count s l1 = 0%nat) by (unfold active_count; now rewrite H1).
    assert (E2 : active_count s l2 = 0%nat) by (unfold active_count; now rewrite H2).
    rewrite E1, E2.
    destruct (is_active s (apply_patch (as_patch d) r)), (is_active s r); lia.
  - rewrite (is_active_other_store s s' r) by (trivial; now apply is_active_store).
    rewrite (is_active_other_store s s' (apply_patch (as_patch d) r)) by trivial.
    lia.
Qed.

Lemma insert_active_count (s : string) (rows : list Row) (r : Row) (s' : string) :
  filter (is_active s) rows = [] ->
  store_id r = s ->
  (active_count s' (rows ++ [r])
   <= Nat.max (active_count s' rows) (if String.eqb s' s then 1 else 0))%nat.
Proof.
  intros Hf Hs. rewrite active_count_app, active_count_cons.
  destruct (String.eqb_spec s' s) as [-> | Hne].
  - unfold active_count. rewrite Hf. simpl. destruct (is_active s r); simpl; lia.
  - rewrite (is_active_other_store s s' r) by trivial.
    change (active_count s' []) with 0%nat. lia.
Qed.

Lemma inserted_row_store (e : UpdateEnv) (storeId status : string)
    (current total : Z) (notes : option string) (w : World) :
  store_id (inserted_row e storeId status current total notes w) = storeId.
Proof. reflexivity. Qed.

(** Every call keeps the identifiers of the table distinct. *)
Lemma updateSyncProgress_unique_ids (e : UpdateEnv) (storeId status : string)
    (current total : Z) (notes : option string) (w : World) :
  unique_ids (rows_of w) ->
  unique_ids (rows_of (fst (updateSyncProgress e storeId status current total notes w))).
Proof.
  intros Hu.
  destruct (updateSyncProgress_cases e storeId status current total notes w)
    as [_ [-> | [(r & _ & ->) | (_ & ->)]]].
  - exact Hu.
  - unfold unique_ids. now rewrite update_rows_ids.
  - unfold unique_ids. rewrite map_app. apply NoDup_app.
    + exact Hu.
    + simpl. constructor; [intros [] | constructor].
    + intros a Ha [<- | []]. revert Ha. apply fresh_id_unused.
Qed.

(** Every call keeps, for every store, the number of active rows at most
    one. *)
Lemma updateSyncProgress_at_most_one (e : UpdateEnv) (storeId status : string)
    (current total : Z) (notes : option string) (w : World) (s : string) :
  unique_ids (rows_of w) ->
  (active_count s (rows_of w) <= 1)%nat ->
  (active_count s
     (rows_of (fst (updateSyncProgress e storeId status current total notes w)))
   <= 1)%nat.
Proof.
  intros Hu Hc.
  destruct (updateSyncProgress_cases e storeId status current total notes w)
    as [_ [-> | [(r & Hf & ->) | (Hf & ->)]]].
  - exact Hc.
  - pose proof (update_active_count storeId
      (progressDataOf e storeId status current total notes w)
      (rows_of w) r s Hu Hf eq_refl) as H.
    destruct (String.eqb s storeId); lia.
  - pose proof (insert_active_count storeId (rows_of w)
      (inserted_row e storeId status current total notes w) s Hf eq_refl) as H.
    destruct (String.eqb s storeId); lia.
Qed.

(** While a store has its active row, a [start] call inserts nothing and
    the store keeps exactly that one active row. *)
Lemma start_keeps_active (e : UpdateEnv) (storeId : string) (w : World) :
  unique_ids (rows_of w) ->
  active_count storeId (rows_of w) = 1%nat ->
  active_count storeId (rows_of (fst (start e storeId w))) = 1%nat /\
  List.length (rows_of (fst (start e storeId w))) = List.length (rows_of w).
Proof.
  intros Hu Hc. unfold start.
  destruct (updateSyncProgress_cases e storeId "in_progress" 0 0 None w)
    as [_ [-> | [(r & Hf & ->) | (Hf & _)]]].
  - auto.
  - split; [| apply update_rows_length].
    destruct (filter_singleton _ _ _ Hf) as (l1 & l2 & E & H1 & H2 & Hr).
    rewrite E in Hu |- *. rewrite update_rows_split by exact Hu.
    rewrite active_count_app, active_count_cons.
    assert (E1 : active_count storeId l1 = 0%nat) by (unfold active_count; now rewrite H1).
    assert (E2 : active_count storeId l2 = 0%nat) by (unfold active_count; now rewrite H2).
    rewrite E1, E2.
    replace (is_active storeId _) with true; [reflexivity |].
    unfold is_active, for_store. simpl. now rewrite String.eqb_refl.
  - unfold active_count in Hc. rewrite Hf in Hc. discriminate.
Qed.

(** With distinct identifiers, a successful call for a store that has an
    active row rewrites that row in place. *)
Lemma updateSyncProgress_overwrites (e : UpdateEnv) (storeId status : string)
    (current total : Z) (notes : option string) (w : World) (r : Row) :
  all_succeed e ->
  unique_ids (rows_of w) ->
  filter (is_active storeId) (rows_of w) = [r] ->
  let d := progressDataOf e storeId status current total notes w in
  exists l1 l2,
    rows_of w = l1 ++ r :: l2 /\
    rows_of (fst (updateSyncProgress e storeId status current total notes w))
      = l1 ++ apply_patch (as_patch d) r :: l2.
Proof.
  intros Hall Hu Hf d. subst d.
  pose proof (updateSyncProgress_healthy e storeId status current total notes w Hall) as H.
  cbv zeta in H. rewrite Hf in H. destruct H as [Hrows _].
  destruct (filter_singleton _ _ _ Hf) as (l1 & l2 & E & _).
  exists l1, l2. split; [exact E |].
  rewrite Hrows. rewrite E in Hu |- *. now apply update_rows_split.
Qed.

(** C3 (amended). From a table with distinct identifiers and at most one
    [in_progress] row for the store, every sequence of [start] calls for
    that store, whatever the fate of their requests, leaves at most one
    [in_progress] row for it; once the store has such a row, no [start]
    call of the sequence inserts a row.  A [start] call that finds the
    row and succeeds returns nothing and rewrites the row in place:
    counters 0, no note, [updated_at] the time of the call. *)
Theorem at_most_one_active (envs : list UpdateEnv) (storeId : string) (w : World) :
  unique_ids (rows_of w) ->
  (active_count storeId (rows_of w) <= 1)%nat ->
  let w' := run_starts envs storeId w in
  unique_ids (rows_of w') /\
  (active_count storeId (rows_of w') <= 1)%nat /\
  (active_count storeId (rows_of w) = 1%nat ->
   active_count storeId (rows_of w') = 1%nat /\
   List.length (rows_of w') = List.length (rows_of w)) /\
  (forall e r,
     all_succeed e -> filter (is_active storeId) (rows_of w) = [r] ->
     snd (start e storeId w) = inl tt /\
     exists l1 l2 r',
       rows_of w = l1 ++ r :: l2 /\
       rows_of (fst (start e storeId w)) = l1 ++ r' :: l2 /\
       id r' = id r /\ started_at r' = started_at r /\
       status r' = "in_progress" /\
       orders_processed r' = 0 /\ total_orders r' = 0 /\ notes r' = None /\
       updated_at r' = clock w + Z.of_N (u_updated e)).
Proof.
  intros Hu0 Hc0 w'. subst w'.
  assert (Hseq : forall envs w,
    unique_ids (rows_of w) ->
    (active_count storeId (rows_of w) <= 1)%nat ->
    unique_ids (rows_of (run_starts envs storeId w)) /\
    (active_count storeId (rows_of (run_starts envs storeId w)) <= 1)%nat /\
    (active_count storeId (rows_of w) = 1%nat ->
     active_count storeId (rows_of (run_starts envs storeId w)) = 1%nat /\
     List.length (rows_of (run_starts envs storeId w)) = List.length (rows_of w))).
  { clear envs w Hu0 Hc0.
    induction envs as [| e rest IH]; intros w Hu Hc; simpl.
    - auto.
    - pose proof (updateSyncProgress_unique_ids e storeId "in_progress" 0 0 None w Hu)
        as Hu1.
      pose proof (updateSyncProgress_at_most_one e storeId "in_progress" 0 0 None w
                    storeId Hu Hc) as Hc1.
      destruct (IH (fst (start e storeId w)) Hu1 Hc1) as (Hu' & Hc' & Hkeep).
      split; [exact Hu' | split; [exact Hc' |]].
      intros Hone. destruct (start_keeps_active e storeId w Hu Hone) as [Ha Hl].
      destruct (Hkeep Ha) as [Ha' Hl']. split; [exact Ha' | congruence]. }
  destruct (Hseq envs w Hu0 Hc0) as (Hu' & Hc' & Hkeep).
  split; [exact Hu' | split; [exact Hc' | split; [exact Hkeep |]]].
  intros e r Hall Hf. unfold start. split.
  - apply (updateSyncProgress_cases e storeId "in_progress" 0 0 None w).
  - destruct (updateSyncProgress_overwrites e storeId "in_progress" 0 0 None w r
                Hall Hu0 Hf) as (l1 & l2 & E & Hrows).
    exists l1, l2. eexists. split; [exact E | split; [exact Hrows |]].
    repeat split.
Qed.

(** C2 (amended). A row whose status is not [in_progress] is left exactly
    as it is by every later [updateSyncProgress] call (a report or a
    finish, for any store), given distinct identifiers; the call is not a
    no-op on the table, though: when the store has no [in_progress] row
    and the requests succeed it inserts a new row. *)
Theorem terminal_row_kept (e : UpdateEnv) (storeId status' : string)
    (current total : Z) (notes : option string) (w : World) (r : Row) :
  unique_ids (rows_of w) ->
  In r (rows_of w) ->
  status r <> "in_progress" ->
  let run := updateSyncProgress e storeId status' current total notes w in
  In r (rows_of (fst run)) /\
  (all_succeed e -> filter (is_active storeId) (rows_of w) = [] ->
   rows_of (fst run) =
     rows_of w ++ [inserted_row e storeId status' current total notes w]).
Proof.
  intros Hu Hin Hst run. subst run. split.
  - destruct (updateSyncProgress_cases e storeId status' current total notes w)
      as [_ [-> | [(a & Hf & ->) | (_ & ->)]]].
    + exact Hin.
    + destruct (filter_singleton _ _ _ Hf) as (l1 & l2 & E & _ & _ & Ha).
      rewrite E in Hu, Hin |- *. rewrite update_rows_split by exact Hu.
      apply in_app_or in Hin as [H1 | [<- | H2]].
      * apply in_or_app. now left.
      * exfalso. apply Hst. unfold is_active in Ha.
        apply andb_true_iff in Ha as [_ Ha]. now apply String.eqb_eq.
      * apply in_or_app. right. now right.
    + apply in_or_app. now left.
  - intros Hall Hf.
    pose proof (updateSyncProgress_healthy e storeId status' current total notes w Hall) as H.
    cbv zeta in H. rewrite Hf in H. apply H.
Qed.

(** C4 (amended). A call for a store that has no [in_progress] row raises
    no error and changes no existing row, but it is not a no-op: it adds
    a new row carrying the reported status and counters whenever its
    requests succeed, and adds nothing only when one of them fails. *)
Theorem report_without_active (e : UpdateEnv) (storeId status' : string)
    (current total : Z) (notes : option string) (w : World) :
  filter (is_active storeId) (rows_of w) = [] ->
  let run := updateSyncProgress e storeId status' current total notes w in
  let added := inserted_row e storeId status' current total notes w in
  snd run = inl tt /\
  (rows_of (fst run) = rows_of w \/ rows_of (fst run) = rows_of w ++ [added]) /\
  (all_succeed e -> rows_of (fst run) = rows_of w ++ [added]) /\
  (store_id added = storeId /\ status added = status' /\
   orders_processed added = current /\ total_orders added = total).
Proof.
  intros Hf run added. subst run added.
  destruct (updateSyncProgress_cases e storeId status' current total notes w)
    as [Hret Hcases].
  split; [exact Hret | split; [| split]].
  - destruct Hcases as [-> | [(r & Hr & _) | (_ & ->)]]; auto.
    rewrite Hf in Hr. discriminate.
  - intros Hall.
    pose proof (updateSyncProgress_healthy e storeId status' current total notes w Hall) as H.
    cbv zeta in H. rewrite Hf in H. apply H.
  - repeat split.
Qed.

Lemma filter_is_write_app (l1 l2 : list Call) :
  filter is_write (l1 ++ l2) = filter is_write l1 ++ filter is_write l2.
Proof. apply filter_app. Qed.

(** C6 (amended). A [start] call for a store without [in_progress] row,
    all of whose requests succeed, appends exactly one row, with a new
    identifier, [status = in_progress], both counters 0 and [updated_at]
    the time read when the call builds its data, and sends exactly one
    write request, the insert. *)
Theorem start_creates_record (e : UpdateEnv) (storeId : string) (w : World) :
  all_succeed e ->
  filter (is_active storeId) (rows_of w) = [] ->
  let run := start e storeId w in
  exists r,
    rows_of (fst run) = rows_of w ++ [r] /\
    ~ In (id r) (map id (rows_of w)) /\
    store_id r = storeId /\ status r = "in_progress" /\
    orders_processed r = 0 /\ total_orders r = 0 /\
    updated_at r = clock w + Z.of_N (u_updated e) /\
    filter is_write (calls (fst run)) =
      filter is_write (calls w) ++ [WInsert storeId].
Proof.
  intros Hall Hf run. subst run. unfold start.
  pose proof (updateSyncProgress_healthy e storeId "in_progress" 0 0 None w Hall) as H.
  cbv zeta in H. rewrite Hf in H. destruct H as [Hrows Hcalls].
  exists (inserted_row e storeId "in_progress" 0 0 None w).
  split; [exact Hrows |].
  split; [apply fresh_id_unused |].
  repeat (split; [reflexivity |]).
  rewrite Hcalls, filter_is_write_app.
  destruct (is_some (table w)); reflexivity.
Qed.

(** The two timestamps of an inserted row come from two readings of the
    clock, [updated_at] first. *)
Lemma inserted_row_timestamps (e : UpdateEnv) (storeId status : string)
    (current total : Z) (notes : option string) (w : World) :
  let r := inserted_row e storeId status current total notes w in
  updated_at r = clock w + Z.of_N (u_updated e) /\
  started_at r = updated_at r + Z.of_N (u_started e).
Proof. split; reflexivity. Qed.

(** An update of a row that was started in the past leaves [updated_at]
    at or after [started_at]; so does the time-out mark. *)
Lemma update_keeps_order (e : UpdateEnv) (storeId status : string)
    (current total : Z) (notes : option string) (w : World) (r : Row) :
  started_at r <= clock w ->
  let r' := apply_patch
              (as_patch (progressDataOf e storeId status current total notes w)) r in
  started_at r' <= updated_at r'.
Proof. intros H. simpl. lia. Qed.

Lemma stale_mark_keeps_order (e : GetEnv) (w : World) (r : Row) :
  started_at r <= clock w ->
  let r' := apply_patch
              (stale_patch (clock w + Z.of_N (g_now e) + Z.of_N (g_stamp e))) r in
  started_at r' <= updated_at r'.
Proof. intros H. simpl. lia. Qed.

(** C8 (amended). An [updateSyncProgress] call whose table check finds
    the table absent, or answers with an error, requests the creation of
    the table next; when that request fails, by an error or an
    exception, the call ends there: no lookup, no write, the table as it
    was.  [getSyncProgress] never provisions: on an absent table it sends
    the check only and answers [success = true], [inProgress = false]. *)
Theorem provisioning_on_absence (e : UpdateEnv) (g : GetEnv)
    (storeId status' : string) (current total : Z) (notes : option string)
    (w : World) :
  ((u_tableCheck e = Healthy /\ table w = None \/
    exists m, u_tableCheck e = Fails m) ->
   let run := updateSyncProgress e storeId status' current total notes w in
   (exists rest,
      calls (fst run) = calls w ++ QTableExists :: RpcCreateTable :: rest) /\
   (faulty (u_create e) = true ->
    calls (fst run) = calls w ++ [QTableExists; RpcCreateTable] /\
    table (fst run) = table w /\ snd run = inl tt)) /\
  (g_tableCheck g = Healthy -> table w = None ->
   let run := getSyncProgress g storeId w in
   calls (fst run) = calls w ++ [QTableExists] /\
   table (fst run) = None /\
   snd run = inl not_running).
Proof.
  split.
  - intros Hchk run. subst run.
    destruct w as [c t l], e as [fc fr fl n1 n2 fw]. simpl in Hchk.
    assert (Hshape : (fc = Healthy /\ t = None) \/ exists m, fc = Fails m)
      by exact Hchk.
    clear Hchk. run_update.
    destruct Hshape as [[-> ->] | [m ->]]; simpl.
    + split.
      * destruct fr, fl, fw; simpl; rewrite <- ?app_assoc; simpl; eexists; reflexivity.
      * intros Hfr. destruct fr; [discriminate | |]; simpl;
          rewrite <- ?app_assoc; auto.
    + split.
      * destruct fr, t as [rows |], fl; simpl; rewrite <- ?app_assoc; simpl;
          try (eexists; reflexivity);
          try match goal with
          | |- context [filter ?f ?l] => destruct (filter f l) as [| r [| r' more]]
          end; simpl;
          destruct fw; simpl; rewrite <- ?app_assoc; simpl; eexists; reflexivity.
      * intros Hfr. destruct fr; [discriminate | |]; simpl;
          rewrite <- ?app_assoc; auto.
  - intros Hc Ht run. subst run.
    rewrite (getSyncProgress_absent g storeId w Hc Ht). simpl. auto.
Qed.

(** * The tracker on concrete tables *)

Lemma unique_ids_one (r : Row) : unique_ids [r].
Proof. unfold unique_ids. simpl. constructor; [intros [] | constructor]. Qed.

Lemma unique_ids_none : unique_ids [].
Proof. constructor. Qed.

(** C5 at the boundary, for a row last updated at the epoch. *)
Lemma staleness_boundary_witness :
  isStaleAt 0 900000 = false /\ isStaleAt 0 900001 = true.
Proof.
  destruct staleness_boundary as (_ & H900 & H901).
  split; [exact (H900 0) | exact (H901 0)].
Defined.

(** C1 as stated fails: the row of [running] is [in_progress] and twenty
    minutes old, the poll reports a reconciled stale job, and the update
    having been rejected the row is still [in_progress] afterwards. *)
Lemma stale_row_survives_rejected_update :
  let run := getSyncProgress update_rejected "store-1" running in
  status running_row = "in_progress" /\
  isStaleAt (updated_at running_row) (clock running + Z.of_N twenty_minutes) = true /\
  (exists res, snd run = inl res /\ inProgress res = false /\ isStale res = Some true) /\
  rows_of (fst run) = [running_row] /\
  ~ (exists r, In r (rows_of (fst run)) /\ status r = "failed").
Proof.
  cbv zeta. split; [reflexivity | split; [reflexivity | split; [| split]]].
  - eexists. repeat split.
  - reflexivity.
  - intros (r & [<- | []] & Hr). discriminate Hr.
Qed.

Lemma self_healing_read_witness :
  In (apply_patch (stale_patch 1200000) running_row) (rows_of timed_out) /\
  (forall r, In r (rows_of timed_out) -> id r = 1%nat ->
             status r = "failed" /\ notes r = Some timeout_notes).
Proof.
  pose proof (self_healing_read (healthy_read twenty_minutes) "store-1" running
                [running_row] running_row
                eq_refl eq_refl eq_refl eq_refl eq_refl eq_refl eq_refl) as H.
  cbv zeta in H. destruct H as (_ & Hin & Hall).
  split; [exact Hin | exact Hall].
Defined.

Lemma stale_result_ignores_write_witness :
  exists res,
    snd (getSyncProgress update_rejected "store-1" running) = inl res /\
    success res = true /\ isStale res = Some true /\
    lastSync res = Some running_row /\
    table (fst (getSyncProgress update_rejected "store-1" running))
      = Some [running_row].
Proof.
  destruct (stale_result_ignores_write update_rejected "store-1" running
              [running_row] running_row (Some "connection reset")
              eq_refl eq_refl eq_refl eq_refl eq_refl eq_refl eq_refl)
    as (res & Hres & Hok & _ & Hstale & Hlast & _ & Hkeep).
  exists res.
  split; [exact Hres | split; [exact Hok | split; [exact Hstale |]]].
  split; [exact Hlast |].
  apply Hkeep. discriminate.
Defined.

Lemma getStatus_error_surfacing_witness :
  (exists res, snd (getSyncProgress check_rejected "store-1" running) = inl res /\
               success res = false /\ inProgress res = false) /\
  (exists res, snd (getSyncProgress (healthy_read 0) "store-2" running) = inl res /\
               inProgress res = false).
Proof.
  split.
  - apply (getStatus_error_surfacing check_rejected "store-1" running).
    left. reflexivity.
  - apply (getStatus_error_surfacing (healthy_read 0) "store-2" running).
    intros r [<- | []]. discriminate.
Defined.

(** C2 as stated fails: a finish repeated on the completed row of
    [finished] leaves that row alone but creates a second row. *)
Lemma repeated_finish_inserts :
  let run := finish healthy_update "store-1" "completed" 200 200 None finished in
  rows_of finished = [done_row] /\ status done_row = "completed" /\
  rows_of (fst run) =
    [done_row; mkRow 2 "store-1" "PLACEHOLDER" "completed" 200 200 1 0 0 None] /\
  List.length (rows_of (fst run)) <> List.length (rows_of finished).
Proof. cbv zeta. repeat split. discriminate. Qed.

Lemma terminal_row_kept_witness :
  In done_row
     (rows_of (fst (updateSyncProgress healthy_update "store-1" "in_progress"
                      50 200 None finished))).
Proof.
  apply (terminal_row_kept healthy_update "store-1" "in_progress" 50 200 None
           finished done_row).
  - apply unique_ids_one.
  - left. reflexivity.
  - discriminate.
Defined.

(** C3 as stated fails in its second half: the second [start] returns
    nothing and does not leave the first record unchanged, it rewrites
    its [updated_at]. *)
Lemma second_start_rewrites_record :
  rows_of (run_starts [healthy_update] "store-1" empty_table) = [running_row] /\
  snd (start later_update "store-1"
         (run_starts [healthy_update] "store-1" empty_table)) = inl tt /\
  rows_of (run_starts [healthy_update; later_update] "store-1" empty_table)
    = [mkRow 1 "store-1" "PLACEHOLDER" "in_progress" 0 0 1 0 5000 None] /\
  rows_of (run_starts [healthy_update; later_update] "store-1" empty_table)
    <> rows_of (run_starts [healthy_update] "store-1" empty_table).
Proof. repeat split. discriminate. Qed.

Lemma at_most_one_active_witness :
  (active_count "store-1"
     (rows_of (run_starts [healthy_update; later_update; insert_rejected]
                 "store-1" running)) <= 1)%nat /\
  List.length (rows_of (run_starts [healthy_update; later_update; insert_rejected]
                          "store-1" running)) = 1%nat.
Proof.
  pose proof (at_most_one_active [healthy_update; later_update; insert_rejected]
                "store-1" running (unique_ids_one running_row)
                (Nat.le_refl 1)) as H.
  cbv zeta in H. destruct H as (_ & Hle & Hkeep & _).
  split; [exact Hle |].
  destruct (Hkeep eq_refl) as [_ Hlen]. exact Hlen.
Defined.

(** C4 as stated fails: after the poll has timed the job out, the next
    report of the job finds no [in_progress] row and, instead of being
    dropped, creates a new [in_progress] row. *)
Lemma report_after_timeout_inserts :
  let run := report healthy_update "store-1" 50 200 None timed_out in
  filter (is_active "store-1") (rows_of timed_out) = [] /\
  rows_of (fst run) =
    rows_of timed_out ++
    [mkRow 2 "store-1" "PLACEHOLDER" "in_progress" 50 200 1 1200000 1200000 None] /\
  rows_of (fst run) <> rows_of timed_out.
Proof. cbv zeta. repeat split. discriminate. Qed.

Lemma report_without_active_witness :
  snd (report healthy_update "store-1" 50 200 None timed_out) = inl tt /\
  rows_of (fst (report healthy_update "store-1" 50 200 None timed_out)) =
    rows_of timed_out ++
    [inserted_row healthy_update "store-1" "in_progress" 50 200 None timed_out].
Proof.
  pose proof (report_without_active healthy_update "store-1" "in_progress" 50 200
                None timed_out eq_refl) as H.
  cbv zeta in H. destruct H as (Hret & _ & Hins & _).
  split; [exact Hret |].
  apply Hins. repeat split.
Defined.

(** C6 as stated fails: a [start] whose insert is rejected creates no
    record. *)
Lemma rejected_insert_creates_nothing :
  filter (is_active "store-1") (rows_of empty_table) = [] /\
  rows_of (fst (start insert_rejected "store-1" empty_table)) = [] /\
  snd (start insert_rejected "store-1" empty_table) = inl tt.
Proof. repeat split. Qed.

Lemma start_creates_record_witness :
  exists r,
    rows_of (fst (start healthy_update "store-1" empty_table)) = [r] /\
    status r = "in_progress" /\ orders_processed r = 0 /\ total_orders r = 0.
Proof.
  destruct (start_creates_record healthy_update "store-1" empty_table)
    as (r & Hrows & _ & _ & Hst & Hcur & Htot & _).
  - repeat split.
  - reflexivity.
  - exists r. repeat split; assumption.
Defined.

(** C8 as stated fails for the read path: the check of [getSyncProgress]
    finds the table absent and no creation is requested. *)
Lemma poll_does_not_provision :
  let run := getSyncProgress (healthy_read 0) "store-1" no_table in
  table no_table = None /\
  calls (fst run) = [QTableExists] /\
  ~ In RpcCreateTable (calls (fst run)) /\
  snd run = inl not_running.
Proof.
  cbv zeta. repeat split. intros [H | []]. discriminate H.
Qed.

Lemma provisioning_on_absence_witness :
  calls (fst (start create_rejected "store-1" no_table))
    = [QTableExists; RpcCreateTable] /\
  table (fst (start create_rejected "store-1" no_table)) = None /\
  calls (fst (getSyncProgress (healthy_read 0) "store-1" no_table))
    = [QTableExists].
Proof.
  destruct (provisioning_on_absence create_rejected (healthy_read 0) "store-1"
              "in_progress" 0 0 None no_table) as [Hwrite Hread].
  assert (Habsent : u_tableCheck create_rejected = Healthy /\ table no_table = None \/
                    exists m, u_tableCheck create_rejected = Fails m).
  { left. split; reflexivity. }
  destruct (Hwrite Habsent) as [_ Habort].
  destruct (Habort eq_refl) as (Hcalls & Htable & _).
  destruct (Hread eq_refl eq_refl) as (Hpoll & _ & _).
  repeat split; assumption.
Defined.

(** C9 fails on the code: when the clock advances between the two
    readings of an insert, the new row has [updated_at] before
    [started_at]. *)
Lemma inserted_row_updated_before_started :
  rows_of (fst (start ticking_update "store-1" empty_table))
    = [mkRow 1 "store-1" "PLACEHOLDER" "in_progress" 0 0 1 1 0 None] /\
  exists r, In r (rows_of (fst (start ticking_update "store-1" empty_table))) /\
            updated_at r < started_at r.
Proof.
  split; [reflexivity |].
  eexists. split; [left; reflexivity | reflexivity].
Qed.

(** * Further properties of the read path *)

Ltac run_poll :=
  unfold getSyncProgress, try_catch, bind, tableExistsQuery, selectLatest,
    updateById, newDate, request, sent_by, reads_succeed;
  simpl.

(** What a poll can do to the world: it sends the table check, then
    possibly the fetch, then possibly one update; the table is left as it
    was unless a stale [in_progress] row was fetched and the update
    succeeded. *)
Lemma getSyncProgress_cases (e : GetEnv) (storeId : string) (w : World) :
  let run := getSyncProgress e storeId w in
  exists tail,
    sent_by w (fst run) tail /\
    (tail = [QTableExists] \/ tail = [QTableExists; QLatest storeId] \/
     exists i, tail = [QTableExists; QLatest storeId; WUpdate i]) /\
    (table (fst run) = table w \/
     exists rows data,
       table w = Some rows /\ latest_for storeId rows = Some data /\
       status data = "in_progress" /\ reads_succeed e /\ g_update e = Healthy /\
       isStaleAt (updated_at data) (clock w + Z.of_N (g_now e)) = true /\
       table (fst run) =
         Some (update_rows (id data)
                 (stale_patch (clock w + Z.of_N (g_now e) + Z.of_N (g_stamp e)))
                 rows)).
Proof.
  destruct w as [c t l], e as [fc ff n s fu]. run_poll.
  destruct fc; simpl; try (exists [QTableExists]; now auto).
  destruct t as [rows |]; simpl; [| exists [QTableExists]; now auto].
  destruct ff; simpl;
    try (exists [QTableExists; QLatest storeId]; rewrite <- app_assoc; now auto).
  destruct (latest_for storeId rows) as [data |] eqn:Hl; simpl;
    [| exists [QTableExists; QLatest storeId]; rewrite <- app_assoc; now auto].
  destruct (String.eqb_spec (status data) "in_progress") as [Hs | Hs]; simpl;
    [| exists [QTableExists; QLatest storeId]; rewrite <- app_assoc; now auto].
  destruct (isStaleAt (updated_at data) (c + Z.of_N n)) eqn:Hstale; simpl;
    [| exists [QTableExists; QLatest storeId]; rewrite <- app_assoc; now auto].
  exists [QTableExists; QLatest storeId; WUpdate (id data)].
  destruct fu; simpl; rewrite <- !app_assoc; simpl;
    (split; [reflexivity |]); (split; [eauto |]); auto.
  right. exists rows, data. auto 10.
Qed.

Lemma table_rows_of (w w' : World) : table w' = table w -> rows_of w' = rows_of w.
Proof. unfold rows_of. now intros ->. Qed.

(** X1. A poll never adds or removes a row, never asks for the table to
    be created and never inserts: it sends at most one write request, an
    update, and the identifiers of the table are the same afterwards. *)
Theorem poll_never_inserts (e : GetEnv) (storeId : string) (w : World) :
  let run := getSyncProgress e storeId w in
  map id (rows_of (fst run)) = map id (rows_of w) /\
  is_some (table (fst run)) = is_some (table w) /\
  exists tail,
    sent_by w (fst run) tail /\
    ~ In RpcCreateTable tail /\
    (forall s, ~ In (WInsert s) tail) /\
    (List.length (filter is_write tail) <= 1)%nat.
Proof.
  intros run. subst run.
  destruct (getSyncProgress_cases e storeId w) as (tail & Hsent & Hshape & Htable).
  split; [| split].
  - destruct Htable as [Ht | (rows & data & Hw & _ & _ & _ & _ & _ & Ht)].
    + now rewrite (table_rows_of _ _ Ht).
    + unfold rows_of. rewrite Ht, Hw. apply update_rows_ids.
  - destruct Htable as [Ht | (rows & data & Hw & _ & _ & _ & _ & _ & Ht)].
    + now rewrite Ht.
    + now rewrite Ht, Hw.
  - exists tail. split; [exact Hsent |].
    destruct Hshape as [-> | [-> | [i ->]]]; simpl;
      repeat split; try lia; try (intros s); intuition discriminate.
Qed.

(** X2. A row that is not [in_progress] is never timed out, however old
    it is: when it is the most recent row of the store, the poll answers
    [inProgress = false] with that row as [progress], sets no stale flag
    and sends no write. *)
Theorem terminal_never_timed_out (e : GetEnv) (storeId : string) (w : World)
    (rows : list Row) (data : Row) :
  reads_succeed e ->
  table w = Some rows ->
  latest_for storeId rows = Some data ->
  status data <> "in_progress" ->
  let run := getSyncProgress e storeId w in
  snd run = inl (mkStatus true None false None None (Some data)) /\
  fst run = mkWorld (clock w) (Some rows)
              (calls w ++ [QTableExists; QLatest storeId]).
Proof.
  intros [Hc Hf] Ht Hl Hs run. subst run.
  destruct w as [c t l]; simpl in Ht; subst t.
  unfold getSyncProgress, try_catch, bind, tableExistsQuery, selectLatest, request.
  rewrite Hc, Hf. simpl. rewrite Hl. simpl.
  destruct (String.eqb_spec (status data) "in_progress") as [E | _];
    [contradiction |].
  simpl. unfold log_call. simpl. rewrite <- app_assoc. split; reflexivity.
Qed.

(** X3. The answer of a poll is consistent, whatever happens to its
    requests: a failed read carries a message and no row; [inProgress] is
    answered only with an [in_progress] row of the store that was updated
    at most 15 minutes before the clock reading of the call; the stale
    flag is answered only with [inProgress = false] and the row that was
    found [in_progress] more than 15 minutes after its last update. *)
Theorem poll_answer_consistent (e : GetEnv) (storeId : string) (w : World) :
  let run := getSyncProgress e storeId w in
  exists res,
    snd run = inl res /\
    (success res = false ->
     inProgress res = false /\ error res <> None /\ isStale res = None /\
     progress res = None /\ lastSync res = None) /\
    (success res = true -> error res = None) /\
    (inProgress res = true ->
     success res = true /\ isStale res = None /\
     exists data,
       progress res = Some data /\ In data (rows_of w) /\
       store_id data = storeId /\ status data = "in_progress" /\
       clock (fst run) - updated_at data <= 900000) /\
    (isStale res = Some true ->
     success res = true /\ inProgress res = false /\ progress res = None /\
     exists data,
       lastSync res = Some data /\ In data (rows_of w) /\
       store_id data = storeId /\ status data = "in_progress" /\
       900000 < clock (fst run) - updated_at data).
Proof.
  destruct w as [c t l], e as [fc ff n s fu]. run_poll. unfold rows_of. simpl.
  assert (Hfail : forall c' msg,
    let res := read_failed msg in
    (success res = false ->
     inProgress res = false /\ error res <> None /\ isStale res = None /\
     progress res = None /\ lastSync res = None) /\
    (success res = true -> error res = None) /\
    (inProgress res = true ->
     success res = true /\ isStale res = None /\
     exists data,
       progress res = Some data /\ In data match t with Some rows => rows | None => [] end /\
       store_id data = storeId /\ status data = "in_progress" /\
       c' - updated_at data <= 900000) /\
    (isStale res = Some true ->
     success res = true /\ inProgress res = false /\ progress res = None /\
     exists data,
       lastSync res = Some data /\ In data match t with Some rows => rows | None => [] end /\
       store_id data = storeId /\ status data = "in_progress" /\
       900000 < c' - updated_at data)).
  { intros c' msg. simpl. repeat split; try discriminate. }
  assert (Hidle :
    let res := not_running in
    (success res = false ->
     inProgress res = false /\ error res <> None /\ isStale res = None /\
     progress res = None /\ lastSync res = None) /\
    (success res = true -> error res = None) /\
    (inProgress res = true ->
     success res = true /\ isStale res = None /\
     exists data,
       progress res = Some data /\ In data match t with Some rows => rows | None => [] end /\
       store_id data = storeId /\ status data = "in_progress" /\
       c - updated_at data <= 900000) /\
    (isStale res = Some true ->
     success res = true /\ inProgress res = false /\ progress res = None /\
     exists data,
       lastSync res = Some data /\ In data match t with Some rows => rows | None => [] end /\
       store_id data = storeId /\ status data = "in_progress" /\
       900000 < c - updated_at data)).
  { simpl. repeat split; try discriminate. }
  destruct fc; simpl; try (eexists; split; [reflexivity | apply Hfail]).
  destruct t as [rows |]; simpl; [| eexists; split; [reflexivity | apply Hidle]].
  destruct ff; simpl; try (eexists; split; [reflexivity | apply Hfail]).
  destruct (latest_for storeId rows) as [data |] eqn:Hl; simpl;
    [| eexists; split; [reflexivity | apply Hidle]].
  destruct (latest_for_spec storeId rows data Hl) as (Hin & Hstore & _).
  destruct (String.eqb_spec (status data) "in_progress") as [Hs | Hs]; simpl.
  - destruct (isStaleAt (updated_at data) (c + Z.of_N n)) eqn:Hstale; simpl.
    + apply isStaleAt_iff in Hstale.
      destruct fu; simpl; try (eexists; split; [reflexivity | apply Hfail]);
        (eexists; split; [reflexivity |]); simpl;
        (split; [intros H; discriminate H |]); (split; [reflexivity |]);
        (split; [intros H; discriminate H |]); intros _;
        repeat (split; [reflexivity |]);
        exists data; repeat (split; [assumption || reflexivity |]); lia.
    + apply not_true_iff_false in Hstale. rewrite isStaleAt_iff in Hstale.
      eexists; split; [reflexivity |]. simpl.
      split; [intros H; discriminate H |]. split; [reflexivity |].
      split; [| intros H; discriminate H]. intros _.
      repeat (split; [reflexivity |]).
      exists data. repeat (split; [assumption || reflexivity |]). lia.
  - eexists; split; [reflexivity |]. simpl.
    split; [intros H; discriminate H |]. split; [reflexivity |].
    split; intros H; discriminate H.
Qed.

(** X4. With both reads succeeding and an [in_progress] row as the most
    recent of the store, the poll answers [inProgress = true] exactly when
    that row was updated at most 15 minutes before the clock reading,
    whatever happens to the update request. *)
Theorem poll_running_iff (e : GetEnv) (storeId : string) (w : World)
    (rows : list Row) (data : Row) :
  reads_succeed e ->
  table w = Some rows ->
  latest_for storeId rows = Some data ->
  status data = "in_progress" ->
  exists res,
    snd (getSyncProgress e storeId w) = inl res /\
    (inProgress res = true <->
     clock w + Z.of_N (g_now e) - updated_at data <= 15 * 60 * 1000).
Proof.
  intros [Hc Hf] Ht Hl Hs.
  destruct (isStaleAt (updated_at data) (clock w + Z.of_N (g_now e))) eqn:Hstale.
  - rewrite (getSyncProgress_stale e storeId w rows data Hc Hf Ht Hl Hs Hstale).
    apply isStaleAt_iff in Hstale. cbv zeta.
    destruct (g_update e); simpl; eexists; (split; [reflexivity |]); simpl;
      split; (discriminate || lia).
  - destruct (getSyncProgress_fresh e storeId w rows data Hc Hf Ht Hl Hs Hstale)
      as [-> _].
    apply not_true_iff_false in Hstale. rewrite isStaleAt_iff in Hstale.
    eexists. split; [reflexivity |]. simpl. split; [lia | reflexivity].
Qed.

Lemma unique_ids_inj (rows : list Row) (a b : Row) :
  unique_ids rows -> In a rows -> In b rows -> id a = id b -> a = b.
Proof.
  unfold unique_ids. induction rows as [| x rest IH]; simpl; [intros _ [] |].
  intros Hnd Ha Hb Hid. apply NoDup_cons_iff in Hnd as [Hx Hnd].
  destruct Ha as [<- | Ha], Hb as [<- | Hb].
  - reflexivity.
  - exfalso. apply Hx. rewrite Hid. now apply in_map.
  - exfalso. apply Hx. rewrite <- Hid. now apply in_map.
  - now apply IH.
Qed.

Lemma update_rows_other (i : nat) (p : Patch) (rows : list Row) (r : Row) :
  In r rows -> id r <> i -> In r (update_rows i p rows).
Proof.
  intros Hin Hid. unfold update_rows. apply in_map_iff. exists r.
  split; [| exact Hin]. destruct (Nat.eqb_spec (id r) i); [contradiction | reflexivity].
Qed.

(** X5. A poll rewrites at most one row, the most recent row of the
    polled store and only when it is [in_progress]: with distinct
    identifiers every row of another store, every row that is not
    [in_progress] and every row that is not the most recent of the store
    is still in the table, unchanged. *)
Theorem poll_touches_only_latest (e : GetEnv) (storeId : string) (w : World)
    (r : Row) :
  unique_ids (rows_of w) ->
  In r (rows_of w) ->
  store_id r <> storeId \/ status r <> "in_progress" \/
    latest_for storeId (rows_of w) <> Some r ->
  In r (rows_of (fst (getSyncProgress e storeId w))).
Proof.
  intros Hu Hin Hother.
  destruct (getSyncProgress_cases e storeId w) as (tail & _ & _ & Htable).
  destruct Htable as [Ht | (rows & data & Hw & Hl & Hs & _ & _ & _ & Ht)].
  - now rewrite (table_rows_of _ _ Ht).
  - unfold rows_of in *. rewrite Ht. rewrite Hw in Hu, Hin, Hother.
    destruct (latest_for_spec storeId rows data Hl) as (Hdin & Hdstore & _).
    apply update_rows_other; [exact Hin |].
    intros Hid. assert (r = data) by (apply (unique_ids_inj rows); assumption).
    subst r. destruct Hother as [H | [H | H]]; contradiction.
Qed.

(** X6. A timed-out job is reported as stale once: after a poll has
    marked the stale row as failed, the next poll whose reads succeed
    answers [inProgress = false] with the failed row as [progress], sets
    no stale flag and writes nothing. *)
Theorem reconciled_once (e g : GetEnv) (storeId : string) (w : World)
    (rows : list Row) (data : Row) :
  reads_succeed e ->
  g_update e = Healthy ->
  reads_succeed g ->
  table w = Some rows ->
  unique_ids rows ->
  latest_for storeId rows = Some data ->
  status data = "in_progress" ->
  isStaleAt (updated_at data) (clock w + Z.of_N (g_now e)) = true ->
  let w1 := fst (getSyncProgress e storeId w) in
  let marked := apply_patch (stale_patch (clock w1)) data in
  snd (getSyncProgress g storeId w1)
    = inl (mkStatus true None false None None (Some marked)) /\
  table (fst (getSyncProgress g storeId w1)) = table w1 /\
  status marked = "failed".
Proof.
  intros [Hc Hf] Hu Hg Ht Huniq Hl Hs Hstale w1 marked. subst marked w1.
  rewrite (getSyncProgress_stale e storeId w rows data Hc Hf Ht Hl Hs Hstale).
  rewrite Hu. cbv zeta. simpl fst.
  set (t := clock w + Z.of_N (g_now e) + Z.of_N (g_stamp e)).
  set (w' := set_table _ _).
  assert (Hclock : clock w' = t) by reflexivity.
  assert (Htable : table w' = Some (update_rows (id data) (stale_patch t) rows))
    by reflexivity.
  rewrite Hclock.
  destruct (latest_for_spec storeId rows data Hl) as (Hin & Hstore & Hmax).
  apply isStaleAt_iff in Hstale.
  assert (Hlatest : latest_for storeId (update_rows (id data) (stale_patch t) rows)
                    = Some (apply_patch (stale_patch t) data)).
  { apply latest_for_strict.
    - now apply update_rows_In.
    - exact Hstore.
    - intros x Hx Hxs Hne. unfold update_rows in Hx.
      apply in_map_iff in Hx as (x0 & Hx0 & Hin0).
      destruct (Nat.eqb_spec (id x0) (id data)) as [E | NE].
      + assert (x0 = data) by (apply (unique_ids_inj rows); assumption).
        subst x0. now contradiction Hne.
      + subst x. specialize (Hmax x0 Hin0 Hxs). simpl. unfold t. lia. }
  destruct (terminal_never_timed_out g storeId w' _ _ Hg Htable Hlatest)
    as [Hres Hworld]; [discriminate |].
  rewrite Hres, Hworld. repeat split.
Qed.

(** ** Invariants of arbitrary sequences of calls *)

Lemma stale_update_active_count (s : string) (i : nat) (t : Z) (rows : list Row) :
  (active_count s (update_rows i (stale_patch t) rows) <= active_count s rows)%nat.
Proof.
  unfold update_rows. induction rows as [| a rest IH]; [apply Nat.le_refl |].
  change (map ?f (a :: rest)) with (f a :: map f rest).
  rewrite !active_count_cons.
  destruct (Nat.eqb (id a) i).
  - replace (is_active s (apply_patch (stale_patch t) a)) with false.
    + destruct (is_active s a); lia.
    + unfold is_active. simpl. now rewrite andb_false_r.
  - lia.
Qed.

Lemma poll_rows (e : GetEnv) (storeId : string) (w : World) :
  rows_of (fst (getSyncProgress e storeId w)) = rows_of w \/
  exists i t, rows_of (fst (getSyncProgress e storeId w))
              = update_rows i (stale_patch t) (rows_of w).
Proof.
  destruct (getSyncProgress_cases e storeId w) as (tail & _ & _ & Htable).
  destruct Htable as [Ht | (rows & data & Hw & _ & _ & _ & _ & _ & Ht)].
  - left. now apply table_rows_of.
  - right. unfold rows_of. rewrite Ht, Hw. eauto.
Qed.

Lemma run_op_unique_ids (o : Op) (w : World) :
  unique_ids (rows_of w) -> unique_ids (rows_of (run_op o w)).
Proof.
  intros Hu. destruct o as [e s st c t n | g s]; simpl.
  - now apply updateSyncProgress_unique_ids.
  - destruct (poll_rows g s w) as [-> | (i & t & ->)]; [exact Hu |].
    unfold unique_ids. now rewrite update_rows_ids.
Qed.

Lemma run_op_at_most_one (o : Op) (w : World) (s : string) :
  unique_ids (rows_of w) ->
  (active_count s (rows_of w) <= 1)%nat ->
  (active_count s (rows_of (run_op o w)) <= 1)%nat.
Proof.
  intros Hu Hc. destruct o as [e s' st c t n | g s']; simpl.
  - now apply updateSyncProgress_at_most_one.
  - destruct (poll_rows g s' w) as [-> | (i & t & ->)]; [exact Hc |].
    pose proof (stale_update_active_count s i t (rows_of w)). lia.
Qed.

(** X7. Whatever calls are made, for whatever stores and with whatever
    outcome of their requests, a table with distinct identifiers and at
    most one [in_progress] row per store keeps both properties. *)
Theorem tracker_invariants (ops : list Op) (w : World) :
  unique_ids (rows_of w) ->
  (forall s, (active_count s (rows_of w) <= 1)%nat) ->
  unique_ids (rows_of (run_ops ops w)) /\
  (forall s, (active_count s (rows_of (run_ops ops w)) <= 1)%nat).
Proof.
  revert w. induction ops as [| o rest IH]; intros w Hu Hc; simpl.
  - auto.
  - apply IH.
    + now apply run_op_unique_ids.
    + intros s. now apply run_op_at_most_one.
Qed.

Lemma same_origin_refl (r : Row) : same_origin r r.
Proof. repeat split. Qed.

Lemma same_origin_trans (a b c : Row) :
  same_origin a b -> same_origin b c -> same_origin a c.
Proof. unfold same_origin. intros (? & ? & ? & ?) (? & ? & ? & ?). repeat split; congruence. Qed.

Lemma update_rows_origin_patch (p : Patch) (r : Row) :
  same_origin r (apply_patch p r).
Proof. repeat split. Qed.

Lemma update_rows_origin (i : nat) (p : Patch) (rows : list Row) (r : Row) :
  In r rows -> exists r', In r' (update_rows i p rows) /\ same_origin r r'.
Proof.
  intros Hin. unfold update_rows.
  exists (if Nat.eqb (id r) i then apply_patch p r else r). split.
  - apply in_map_iff. eauto.
  - destruct (Nat.eqb (id r) i); repeat split.
Qed.

Lemma update_rows_from (i : nat) (p : Patch) (rows : list Row) (r' : Row) :
  In r' (update_rows i p rows) -> exists r, In r rows /\ same_origin r r'.
Proof.
  unfold update_rows. intros Hin. apply in_map_iff in Hin as (r & <- & Hin).
  exists r. split; [exact Hin |]. destruct (Nat.eqb (id r) i); repeat split.
Qed.

Lemma run_op_keeps_row (o : Op) (w : World) (r : Row) :
  In r (rows_of w) ->
  exists r', In r' (rows_of (run_op o w)) /\ same_origin r r'.
Proof.
  intros Hin. destruct o as [e s st c t n | g s]; simpl.
  - destruct (updateSyncProgress_cases e s st c t n w)
      as [_ [-> | [(a & _ & ->) | (_ & ->)]]].
    + exists r. split; [exact Hin | apply same_origin_refl].
    + now apply update_rows_origin.
    + exists r. split; [apply in_or_app; now left | apply same_origin_refl].
  - destruct (poll_rows g s w) as [-> | (i & t & ->)].
    + exists r. split; [exact Hin | apply same_origin_refl].
    + now apply update_rows_origin.
Qed.

(** X8. No call of the tracker deletes a row or rewrites its [id],
    [started_at], [connection_id] or [current_page]: after any sequence
    of calls every row of the table is still there with these columns. *)
Theorem rows_never_deleted (ops : list Op) (w : World) (r : Row) :
  In r (rows_of w) ->
  exists r', In r' (rows_of (run_ops ops w)) /\ same_origin r r'.
Proof.
  revert w r. induction ops as [| o rest IH]; intros w r Hin; simpl.
  - exists r. split; [exact Hin | apply same_origin_refl].
  - destruct (run_op_keeps_row o w r Hin) as (r1 & Hin1 & H1).
    destruct (IH _ r1 Hin1) as (r2 & Hin2 & H2).
    exists r2. split; [exact Hin2 | now apply (same_origin_trans r r1 r2)].
Qed.

Lemma run_op_row_from (o : Op) (w : World) (r' : Row) :
  In r' (rows_of (run_op o w)) ->
  (exists r, In r (rows_of w) /\ same_origin r r') \/
  (connection_id r' = "PLACEHOLDER" /\ current_page r' = 1).
Proof.
  intros Hin. destruct o as [e s st c t n | g s]; simpl in Hin.
  - destruct (updateSyncProgress_cases e s st c t n w)
      as [_ [E | [(a & _ & E) | (_ & E)]]]; rewrite E in Hin.
    + left. exists r'. split; [exact Hin | apply same_origin_refl].
    + left. now apply update_rows_from in Hin.
    + apply in_app_or in Hin as [Hin | [<- | []]].
      * left. exists r'. split; [exact Hin | apply same_origin_refl].
      * right. split; reflexivity.
  - destruct (poll_rows g s w) as [E | (i & t & E)]; rewrite E in Hin.
    + left. exists r'. split; [exact Hin | apply same_origin_refl].
    + left. now apply update_rows_from in Hin.
Qed.

(** X9. The tracker never records a connection: every row it inserts
    carries the [PLACEHOLDER] connection and page 1 and no call replaces
    them, so a table whose rows all came from the tracker has only such
    rows after any sequence of calls. *)
Theorem connection_stays_placeholder (ops : list Op) (w : World) :
  Forall (fun r => connection_id r = "PLACEHOLDER" /\ current_page r = 1)
    (rows_of w) ->
  Forall (fun r => connection_id r = "PLACEHOLDER" /\ current_page r = 1)
    (rows_of (run_ops ops w)).
Proof.
  revert w. induction ops as [| o rest IH]; intros w H; simpl; [exact H |].
  apply IH. rewrite Forall_forall in H |- *. intros r' Hin.
  destruct (run_op_row_from o w r' Hin) as [(r & Hr & (_ & _ & Hc & Hp)) | Hnew].
  - destruct (H r Hr) as [Hc0 Hp0]. split; congruence.
  - exact Hnew.
Qed.

(** * Further properties of the write path *)

(** X10. A call for one store never changes a row of another store,
    given distinct identifiers. *)
Theorem update_leaves_other_stores (e : UpdateEnv) (storeId status' : string)
    (current total : Z) (notes : option string) (w : World) (r : Row) :
  unique_ids (rows_of w) ->
  In r (rows_of w) ->
  store_id r <> storeId ->
  In r (rows_of (fst (updateSyncProgress e storeId status' current total notes w))).
Proof.
  intros Hu Hin Hstore.
  destruct (updateSyncProgress_cases e storeId status' current total notes w)
    as [_ [-> | [(a & Hf & ->) | (_ & ->)]]].
  - exact Hin.
  - destruct (filter_singleton _ _ _ Hf) as (l1 & l2 & E & _ & _ & Ha).
    apply update_rows_other; [exact Hin |].
    intros Hid. apply Hstore.
    assert (r = a).
    { apply (unique_ids_inj (rows_of w)); trivial.
      rewrite E. apply in_or_app. right. now left. }
    subst r. now apply is_active_store.
  - apply in_or_app. now left.
Qed.

(** X11. Storage failures are swallowed: when the table check throws, or
    the lookup or the write fails by an error or an exception, the call
    returns normally and has written no row. *)
Theorem failed_request_writes_nothing (e : UpdateEnv) (storeId status' : string)
    (current total : Z) (notes : option string) (w : World) :
  (exists m, u_tableCheck e = Throws m) \/
  faulty (u_lookup e) = true \/ faulty (u_write e) = true ->
  let run := updateSyncProgress e storeId status' current total notes w in
  snd run = inl tt /\ rows_of (fst run) = rows_of w.
Proof.
  intros Hfault run. subst run.
  destruct w as [c t l], e as [fc fr fl n1 n2 fw]. simpl in Hfault.
  run_update.
  destruct Hfault as [[m ->] | [Hl | Hw]].
  - simpl. auto.
  - destruct fl; [discriminate | |];
      destruct fc, t as [rows |], fr; simpl; auto.
  - destruct fw; [discriminate | |];
      destruct fc, t as [rows |], fr, fl; simpl; auto;
      try match goal with
          | |- context [filter ?f ?x] => destruct (filter f x) as [| a [| b more]]
          end; simpl; auto.
Qed.

(** The clock and the table after a call all of whose requests
    succeed. *)
Lemma updateSyncProgress_healthy_state (e : UpdateEnv) (storeId status : string)
    (current total : Z) (notes : option string) (w : World) :
  all_succeed e ->
  let run := updateSyncProgress e storeId status current total notes w in
  let d := progressDataOf e storeId status current total notes w in
  match filter (is_active storeId) (rows_of w) with
  | [] =>
      table (fst run) =
        Some (rows_of w ++ [inserted_row e storeId status current total notes w]) /\
      clock (fst run) = clock w + Z.of_N (u_updated e) + Z.of_N (u_started e)
  | [r] =>
      table (fst run) = Some (update_rows (id r) (as_patch d) (rows_of w)) /\
      clock (fst run) = clock w + Z.of_N (u_updated e)
  | _ :: _ :: _ =>
      table (fst run) = Some (rows_of w) /\ clock (fst run) = clock w
  end.
Proof.
  intros (Hc & Hr & Hl & Hw).
  destruct w as [c t l], e as [fc fr fl n1 n2 fw]. simpl in Hc, Hr, Hl, Hw.
  subst fc fr fl fw. run_update.
  destruct t as [rows |]; simpl.
  - destruct (filter (is_active storeId) rows) as [| r [| r' rest]]; simpl;
      split; reflexivity.
  - split; reflexivity.
Qed.

(** X12. What a job reports is what a poller reads.  After a successful
    call on a store with an active row, written later than every other
    row of the store, a poll whose reads succeed answers with that row
    carrying the written status, counters and note; it is answered as
    running exactly when the written status is [in_progress], provided
    the poll reads the clock at most 15 minutes after the write. *)
Theorem report_then_poll (e : UpdateEnv) (g : GetEnv) (storeId status' : string)
    (current total : Z) (note : option string) (w : World) (r : Row) :
  all_succeed e ->
  reads_succeed g ->
  unique_ids (rows_of w) ->
  filter (is_active storeId) (rows_of w) = [r] ->
  (forall x, In x (rows_of w) -> store_id x = storeId -> x <> r ->
             updated_at x < clock w + Z.of_N (u_updated e)) ->
  Z.of_N (g_now g) <= 900000 ->
  let w1 := fst (updateSyncProgress e storeId status' current total note w) in
  exists written,
    snd (getSyncProgress g storeId w1)
      = inl (mkStatus true None (status' =? "in_progress")%string None None
               (Some written)) /\
    table (fst (getSyncProgress g storeId w1)) = table w1 /\
    same_origin r written /\
    status written = status' /\ orders_processed written = current /\
    total_orders written = total /\ notes written = or_null note /\
    updated_at written = clock w + Z.of_N (u_updated e).
Proof.
  intros Hall Hg Hu Hf Hearlier Hsoon w1. subst w1.
  pose proof (updateSyncProgress_healthy_state e storeId status' current total
                note w Hall) as Hstate.
  cbv zeta in Hstate. rewrite Hf in Hstate. destruct Hstate as [Ht Hclock].
  set (d := progressDataOf e storeId status' current total note w) in *.
  set (w1 := fst (updateSyncProgress e storeId status' current total note w)) in *.
  destruct (filter_singleton _ _ _ Hf) as (l1 & l2 & E & _ & _ & Hact).
  assert (Hin : In r (rows_of w)) by (rewrite E; apply in_or_app; right; now left).
  exists (apply_patch (as_patch d) r).
  assert (Hlatest : latest_for storeId (update_rows (id r) (as_patch d) (rows_of w))
                    = Some (apply_patch (as_patch d) r)).
  { apply latest_for_strict.
    - now apply update_rows_In.
    - reflexivity.
    - intros x Hx Hxs Hne. unfold update_rows in Hx.
      apply in_map_iff in Hx as (x0 & Hx0 & Hin0).
      destruct (Nat.eqb_spec (id x0) (id r)) as [Eid | NE].
      + assert (x0 = r) by (apply (unique_ids_inj (rows_of w)); assumption).
        subst x0. now contradiction Hne.
      + subst x. simpl. apply Hearlier; trivial.
        intros ->. now contradiction NE. }
  destruct (String.eqb_spec status' "in_progress") as [Est | Est].
  - destruct Hg as [Hgc Hgf].
    destruct (getSyncProgress_fresh g storeId w1 _ _ Hgc Hgf Ht Hlatest) as [Hres Htab].
    + simpl. exact Est.
    + apply not_true_iff_false. rewrite isStaleAt_iff. rewrite Hclock. simpl. lia.
    + rewrite Hres, Htab, Ht. repeat split.
  - destruct (terminal_never_timed_out g storeId w1 _ _ Hg Ht Hlatest) as [Hres Hworld].
    + simpl. exact Est.
    + rewrite Hres, Hworld, Ht. repeat split.
Qed.

(** X13. The same for the first call of a job: after a successful call on
    a store without active row, made later than every row of the store, a
    poll whose reads succeed answers with the inserted row; it is
    answered as running exactly when the written status is [in_progress],
    provided the poll reads the clock at most 15 minutes after the call
    built its data. *)
Theorem start_then_poll (e : UpdateEnv) (g : GetEnv) (storeId status' : string)
    (current total : Z) (note : option string) (w : World) :
  all_succeed e ->
  reads_succeed g ->
  filter (is_active storeId) (rows_of w) = [] ->
  (forall x, In x (rows_of w) -> store_id x = storeId ->
             updated_at x < clock w + Z.of_N (u_updated e)) ->
  Z.of_N (u_started e) + Z.of_N (g_now g) <= 900000 ->
  let w1 := fst (updateSyncProgress e storeId status' current total note w) in
  let added := inserted_row e storeId status' current total note w in
  snd (getSyncProgress g storeId w1)
    = inl (mkStatus true None (status' =? "in_progress")%string None None
             (Some added)) /\
  table (fst (getSyncProgress g storeId w1)) = table w1 /\
  status added = status' /\ orders_processed added = current /\
  total_orders added = total /\ notes added = or_null note.
Proof.
  intros Hall Hg Hf Hearlier Hsoon w1 added. subst w1 added.
  pose proof (updateSyncProgress_healthy_state e storeId status' current total
                note w Hall) as Hstate.
  cbv zeta in Hstate. rewrite Hf in Hstate. destruct Hstate as [Ht Hclock].
  set (added := inserted_row e storeId status' current total note w) in *.
  set (w1 := fst (updateSyncProgress e storeId status' current total note w)) in *.
  assert (Hlatest : latest_for storeId (rows_of w ++ [added]) = Some added).
  { apply latest_for_strict.
    - apply in_or_app. right. now left.
    - reflexivity.
    - intros x Hx Hxs Hne. apply in_app_or in Hx as [Hx | [<- | []]].
      + simpl. now apply Hearlier.
      + now contradiction Hne. }
  destruct (String.eqb_spec status' "in_progress") as [Est | Est].
  - destruct Hg as [Hgc Hgf].
    destruct (getSyncProgress_fresh g storeId w1 _ _ Hgc Hgf Ht Hlatest) as [Hres Htab].
    + simpl. exact Est.
    + apply not_true_iff_false. rewrite isStaleAt_iff. rewrite Hclock. simpl. lia.
    + rewrite Hres, Htab, Ht. repeat split.
  - destruct (terminal_never_timed_out g storeId w1 _ _ Hg Ht Hlatest) as [Hres Hworld].
    + simpl. exact Est.
    + rewrite Hres, Hworld, Ht. repeat split.
Qed.

(** X14. A successful call on a store with an active row writes that one
    row and nothing else: the row keeps its place, its [id],
    [started_at], [connection_id] and [current_page], every other row is
    untouched, and status, counters, [updated_at] and note are replaced;
    a call without note, or with an empty one, erases the stored note. *)
Theorem update_rewrites_one_row (e : UpdateEnv) (storeId status' : string)
    (current total : Z) (note : option string) (w : World) (r : Row) :
  all_succeed e ->
  unique_ids (rows_of w) ->
  filter (is_active storeId) (rows_of w) = [r] ->
  exists l1 l2 r',
    rows_of w = l1 ++ r :: l2 /\
    rows_of (fst (updateSyncProgress e storeId status' current total note w))
      = l1 ++ r' :: l2 /\
    same_origin r r' /\ store_id r' = storeId /\ status r' = status' /\
    orders_processed r' = current /\ total_orders r' = total /\
    updated_at r' = clock w + Z.of_N (u_updated e) /\
    notes r' = or_null note /\
    (note = None \/ note = Some "" -> notes r' = None).
Proof.
  intros Hall Hu Hf.
  destruct (updateSyncProgress_overwrites e storeId status' current total note w r
              Hall Hu Hf) as (l1 & l2 & E & Hrows).
  exists l1, l2. eexists. split; [exact E | split; [exact Hrows |]].
  split; [apply update_rows_origin_patch |].
  repeat (split; [reflexivity |]).
  intros [-> | ->]; reflexivity.
Qed.

(** * The history recorder *)

(** X15. [recordSyncHistory] is best effort: it never throws; when the
    insert succeeds it appends exactly one entry, with the counts and
    status it was given, the time of the call, and the error message, an
    absent or empty one being stored as null; when the insert fails, by
    an error or an exception, the history is left as it was. *)
Theorem history_best_effort (elapsed : N) (f : Fault) (storeId : string)
    (ordersCount productsCount : Z) (status' : string) (err : option string)
    (h : HistoryWorld) :
  let run := recordSyncHistory elapsed f storeId ordersCount productsCount
               status' err h in
  snd run = inl tt /\
  (f = Healthy ->
   sync_history (fst run) =
     sync_history h ++
     [mkHistoryEntry storeId ordersCount productsCount
        (h_clock h + Z.of_N elapsed) status' (or_null err)]) /\
  (err = None \/ err = Some "" -> f = Healthy ->
   exists entry, sync_history (fst run) = sync_history h ++ [entry] /\
                 error_message entry = None) /\
  (faulty f = true -> sync_history (fst run) = sync_history h).
Proof.
  unfold recordSyncHistory, insertHistory.
  destruct f; simpl.
  - split; [reflexivity | split; [intros _; reflexivity | split]].
    + intros [-> | ->] _; eexists; split; reflexivity.
    + intros H. discriminate H.
  - split; [reflexivity | split; [intros H; discriminate H | split]].
    + intros _ H. discriminate H.
    + intros _. reflexivity.
  - split; [reflexivity | split; [intros H; discriminate H | split]].
    + intros _ H. discriminate H.
    + intros _. reflexivity.
Qed.

(** X16. The history is an append-only log: after any sequence of calls
    the entries that were there are still there, in front and unchanged,
    followed by one entry per call whose insert succeeded, in the order
    of the calls, each dated between the first and the last clock
    reading. *)
Theorem history_append_only (cs : list HistoryCall) (h : HistoryWorld) :
  exists added,
    sync_history (run_history cs h) = sync_history h ++ added /\
    map undated added = map (fun c => undated (entry_of c 0)) (filter succeeded cs) /\
    Forall (fun x => h_clock h <= sync_date x <= h_clock (run_history cs h)) added /\
    h_clock h <= h_clock (run_history cs h).
Proof.
  revert h. induction cs as [| c rest IH]; intros h; simpl.
  - exists []. rewrite app_nil_r. repeat split; [constructor | lia].
  - destruct (IH (run_history_call c h)) as (added & Hlog & Hmap & Hdates & Hclock).
    assert (Hstep : h_clock (run_history_call c h) = h_clock h + Z.of_N (hc_elapsed c)).
    { unfold run_history_call, recordSyncHistory, insertHistory.
      destruct (hc_fault c); reflexivity. }
    assert (Hmono : h_clock h <= h_clock (run_history_call c h)) by lia.
    assert (Hlater : Forall (fun x => h_clock h <= sync_date x
                                      <= h_clock (run_history rest (run_history_call c h)))
                       added).
    { rewrite Forall_forall in Hdates |- *. intros x Hx.
      specialize (Hdates x Hx). lia. }
    unfold succeeded at 1. unfold succeeded at 1.
    destruct (hc_fault c) eqn:Hf; simpl.
    + exists (entry_of c (h_clock h + Z.of_N (hc_elapsed c)) :: added).
      split; [| split; [| split]].
      * rewrite Hlog. unfold run_history_call, recordSyncHistory, insertHistory.
        rewrite Hf. simpl. now rewrite <- app_assoc.
      * simpl. now rewrite Hmap.
      * constructor; [simpl; lia | exact Hlater].
      * lia.
    + exists added. split; [| split; [| split]]; trivial; [| lia].
      rewrite Hlog. unfold run_history_call, recordSyncHistory, insertHistory.
      now rewrite Hf.
    + exists added. split; [| split; [| split]]; trivial; [| lia].
      rewrite Hlog. unfold run_history_call, recordSyncHistory, insertHistory.
      now rewrite Hf.
Qed.

(** * The product page *)

Module ProductsFacts.

Import Products.

Lemma filter_all {A : Type} (f : A -> bool) (l : list A) :
  (forall x, In x l -> f x = true) -> filter f l = l.
Proof.
  induction l as [| a rest IH]; intros H; simpl; [reflexivity |].
  rewrite (H a) by now left. f_equal. apply IH. intros x Hx. apply H. now right.
Qed.

Lemma filter_none {A : Type} (f : A -> bool) (l : list A) :
  (forall x, In x l -> f x = false) -> filter f l = [].
Proof.
  induction l as [| a rest IH]; intros H; simpl; [reflexivity |].
  rewrite (H a) by now left. apply IH. intros x Hx. apply H. now right.
Qed.

Lemma formatted_view (data : list (ProductData * Draw)) (p : Product) :
  In p (formattedProducts data) ->
  storeView p = "DK Website" /\ customerGroup p = "Retail".
Proof.
  unfold formattedProducts. intros H.
  apply in_map_iff in H as (x & <- & _). split; reflexivity.
Qed.

(** X17. With both select boxes on [Alle] and an empty search box the
    table shows every product, in the order they were loaded, whatever
    the names and SKUs are: the search text is not even looked at. *)
Theorem default_filters_show_all (toLowerCase : string -> string)
    (includes : string -> string -> bool) (st : State) :
  selectedStoreView st = "Alle" ->
  selectedCustomerGroup st = "Alle" ->
  searchQuery st = "" ->
  filteredProducts toLowerCase includes st = products st.
Proof.
  intros Hv Hg Hq. unfold filteredProducts. apply filter_all.
  intros p _. unfold keeps. rewrite Hv, Hg, Hq. reflexivity.
Qed.

(** X18. Every loaded product is given the store view [DK Website] and
    the customer group [Retail], so the two select boxes cannot narrow
    the list: any other store view than [Alle] and [DK Website], and any
    other customer group than [Alle] and [Retail], empties the table,
    whatever was fetched and searched, and [DK Website] with [Retail]
    shows what [Alle] with [Alle] shows. *)
Theorem placeholder_filters (toLowerCase : string -> string)
    (includes : string -> string -> bool)
    (data : list (ProductData * Draw)) (st : State) (choice : string) :
  (choice <> "Alle" -> choice <> "DK Website" ->
   filteredProducts toLowerCase includes
     (setSelectedStoreView choice (loaded data st)) = []) /\
  (choice <> "Alle" -> choice <> "Retail" ->
   filteredProducts toLowerCase includes
     (setSelectedCustomerGroup choice (loaded data st)) = []) /\
  filteredProducts toLowerCase includes
    (setSelectedStoreView "DK Website"
       (setSelectedCustomerGroup "Retail" (loaded data st)))
  = filteredProducts toLowerCase includes
      (setSelectedStoreView "Alle"
         (setSelectedCustomerGroup "Alle" (loaded data st))).
Proof.
  split; [| split].
  - intros Ha Hd. unfold filteredProducts. apply filter_none.
    intros p Hp. simpl in Hp. destruct (formatted_view data p Hp) as [Hv _].
    unfold keeps. simpl. rewrite Hv.
    destruct (String.eqb_spec choice "Alle"); [contradiction |].
    destruct (String.eqb_spec "DK Website" choice); [congruence |].
    reflexivity.
  - intros Ha Hd. unfold filteredProducts. apply filter_none.
    intros p Hp. simpl in Hp. destruct (formatted_view data p Hp) as [_ Hg].
    unfold keeps. simpl. rewrite Hg.
    destruct (String.eqb_spec choice "Alle"); [contradiction |].
    destruct (String.eqb_spec "Retail" choice); [congruence |].
    now rewrite andb_false_r.
  - unfold filteredProducts. simpl. apply filter_ext_in.
    intros p Hp. destruct (formatted_view data p Hp) as [Hv Hg].
    unfold keeps. simpl. rewrite Hv, Hg. reflexivity.
Qed.

(** X19. Clicking a column header: the clicked column becomes the sort
    column; a second click on it reverses the direction, so two clicks
    on the current sort column restore the state; a click on another
    column starts ascending again, whatever the direction was; and no
    click changes which products are shown. *)
Theorem handleSort_clicks (toLowerCase : string -> string)
    (includes : string -> string -> bool) (column other : string) (st : State) :
  sortColumn (handleSort column st) = column /\
  (sortColumn st = column -> handleSort column (handleSort column st) = st) /\
  (sortColumn st <> column ->
   sortDirection (handleSort column st) = asc /\
   sortDirection (handleSort column (handleSort column st)) = desc) /\
  (other <> column ->
   sortDirection (handleSort column (handleSort other st)) = asc) /\
  filteredProducts toLowerCase includes (handleSort column st)
    = filteredProducts toLowerCase includes st.
Proof.
  unfold handleSort, filteredProducts.
  split; [| split; [| split; [| split]]].
  - destruct (String.eqb_spec (sortColumn st) column) as [E | NE]; simpl; auto.
  - intros E. rewrite E, String.eqb_refl. simpl. rewrite String.eqb_refl.
    destruct st as [v g c d q ps ld]. simpl in E. subst c.
    destruct d; reflexivity.
  - intros NE. destruct (String.eqb_spec (sortColumn st) column) as [E | _];
      [contradiction |].
    simpl. rewrite String.eqb_refl. split; reflexivity.
  - intros NE.
    destruct (String.eqb_spec (sortColumn st) other) as [E | _]; simpl.
    + rewrite E. destruct (String.eqb_spec other column); [contradiction |].
      reflexivity.
    + destruct (String.eqb_spec other column); [contradiction |]. reflexivity.
  - destruct (String.eqb (sortColumn st) column); reflexivity.
Qed.

(** X20. The tiles of the statistics card after a load: the total is
    the number of fetched products, the third tile counts the fetched
    products that are not in stock and the first tile those drawn with
    an upward trend; neither exceeds the total. *)
Theorem tiles_after_load (data : list (ProductData * Draw)) (st : State) :
  totalProducts (loaded data st) = List.length data /\
  outOfStock (loaded data st)
    = List.length (filter (fun x => negb (pd_in_stock (fst x))) data) /\
  trendingUp (loaded data st)
    = List.length (filter (fun x => drawn_up (snd x)) data) /\
  (outOfStock (loaded data st) <= totalProducts (loaded data st))%nat /\
  (trendingUp (loaded data st) <= totalProducts (loaded data st))%nat.
Proof.
  unfold totalProducts, outOfStock, trendingUp, loaded, formattedProducts. simpl.
  assert (Hout : forall l : list (ProductData * Draw),
    List.length (filter (fun p => (stock p =? "Out of Stock")%string)
                   (map (fun x => formatProduct (fst x) (snd x)) l))
    = List.length (filter (fun x => negb (pd_in_stock (fst x))) l)).
  { induction l as [| [p d] rest IH]; [reflexivity |]. simpl.
    destruct (pd_in_stock p); simpl; now rewrite IH. }
  assert (Hup : forall l : list (ProductData * Draw),
    List.length (filter (fun p => (trend p =? "up")%string)
                   (map (fun x => formatProduct (fst x) (snd x)) l))
    = List.length (filter (fun x => drawn_up (snd x)) l)).
  { induction l as [| [p d] rest IH]; [reflexivity |]. simpl.
    destruct (drawn_up d); simpl; now rewrite IH. }
  rewrite length_map, Hout, Hup.
  repeat split; apply filter_length_le.
Qed.

End ProductsFacts.

(** * The further properties on concrete tables *)

Lemma poll_never_inserts_witness :
  map id (rows_of timed_out) = [1%nat] /\
  exists tail, sent_by running timed_out tail /\ ~ In RpcCreateTable tail.
Proof.
  destruct (poll_never_inserts (healthy_read twenty_minutes) "store-1" running)
    as (Hids & _ & tail & Hsent & Hrpc & _).
  split; [exact Hids |]. exists tail. split; assumption.
Defined.

Lemma terminal_never_timed_out_witness :
  snd (getSyncProgress (healthy_read twenty_minutes) "store-1" finished)
    = inl (mkStatus true None false None None (Some done_row)).
Proof.
  apply (terminal_never_timed_out (healthy_read twenty_minutes) "store-1" finished
           [done_row] done_row).
  - split; reflexivity.
  - reflexivity.
  - reflexivity.
  - discriminate.
Defined.

Lemma poll_answer_consistent_witness :
  exists res,
    snd (getSyncProgress (healthy_read 0) "store-1" running) = inl res /\
    exists data, progress res = Some data /\ status data = "in_progress".
Proof.
  destruct (poll_answer_consistent (healthy_read 0) "store-1" running)
    as (res & Hres & _ & _ & Hrun & _).
  exists res. split; [exact Hres |].
  assert (Hin : inProgress res = true).
  { simpl in Hres. injection Hres as <-. reflexivity. }
  destruct (Hrun Hin) as (_ & _ & data & Hp & _ & _ & Hs & _).
  exists data. split; assumption.
Defined.

Lemma poll_running_iff_witness :
  exists res,
    snd (getSyncProgress (healthy_read 900000) "store-1" running) = inl res /\
    inProgress res = true.
Proof.
  destruct (poll_running_iff (healthy_read 900000) "store-1" running
              [running_row] running_row) as (res & Hres & Hiff).
  - split; reflexivity.
  - reflexivity.
  - reflexivity.
  - reflexivity.
  - exists res. split; [exact Hres |]. apply Hiff. simpl. lia.
Defined.

Lemma poll_touches_only_latest_witness :
  In done_row
     (rows_of (fst (getSyncProgress (healthy_read twenty_minutes) "store-1" finished))).
Proof.
  apply (poll_touches_only_latest (healthy_read twenty_minutes) "store-1" finished
           done_row).
  - apply unique_ids_one.
  - left. reflexivity.
  - right. left. discriminate.
Defined.

Lemma reconciled_once_witness :
  snd (getSyncProgress (healthy_read 0) "store-1" timed_out)
    = inl (mkStatus true None false None None
             (Some (apply_patch (stale_patch 1200000) running_row))).
Proof.
  pose proof (reconciled_once (healthy_read twenty_minutes) (healthy_read 0)
                "store-1" running [running_row] running_row) as H.
  cbv zeta in H. apply H.
  - split; reflexivity.
  - reflexivity.
  - split; reflexivity.
  - reflexivity.
  - apply unique_ids_one.
  - reflexivity.
  - reflexivity.
  - reflexivity.
Defined.

Lemma tracker_invariants_witness :
  (active_count "store-1"
     (rows_of (run_ops [Update healthy_update "store-1" "in_progress" 0 0 None;
                        Poll (healthy_read twenty_minutes) "store-1";
                        Update later_update "store-1" "in_progress" 5 10 None;
                        Update insert_rejected "store-2" "in_progress" 0 0 None]
                 empty_table)) <= 1)%nat.
Proof.
  apply (tracker_invariants
           [Update healthy_update "store-1" "in_progress" 0 0 None;
            Poll (healthy_read twenty_minutes) "store-1";
            Update later_update "store-1" "in_progress" 5 10 None;
            Update insert_rejected "store-2" "in_progress" 0 0 None]
           empty_table).
  - apply unique_ids_none.
  - intros s. unfold active_count, rows_of. simpl. lia.
Defined.

Lemma rows_never_deleted_witness :
  exists r',
    In r' (rows_of (run_ops [Poll (healthy_read twenty_minutes) "store-1";
                             Update healthy_update "store-1" "completed" 9 9 None]
                      running)) /\
    same_origin running_row r'.
Proof.
  apply (rows_never_deleted
           [Poll (healthy_read twenty_minutes) "store-1";
            Update healthy_update "store-1" "completed" 9 9 None]
           running running_row).
  left. reflexivity.
Defined.

Lemma connection_stays_placeholder_witness :
  Forall (fun r => connection_id r = "PLACEHOLDER" /\ current_page r = 1)
    (rows_of (run_ops [Update healthy_update "store-1" "in_progress" 0 0 None;
                       Update later_update "store-1" "completed" 9 9 None]
                no_table)).
Proof.
  apply (connection_stays_placeholder
           [Update healthy_update "store-1" "in_progress" 0 0 None;
            Update later_update "store-1" "completed" 9 9 None]
           no_table).
  constructor.
Defined.

Lemma update_leaves_other_stores_witness :
  In running_row
     (rows_of (fst (updateSyncProgress healthy_update "store-2" "in_progress"
                      0 0 None running))).
Proof.
  apply (update_leaves_other_stores healthy_update "store-2" "in_progress" 0 0 None
           running running_row).
  - apply unique_ids_one.
  - left. reflexivity.
  - discriminate.
Defined.

Lemma failed_request_writes_nothing_witness :
  rows_of (fst (updateSyncProgress insert_rejected "store-2" "in_progress"
                  0 0 None running)) = [running_row].
Proof.
  pose proof (failed_request_writes_nothing insert_rejected "store-2" "in_progress"
                0 0 None running) as H.
  cbv zeta in H. apply H. right. right. reflexivity.
Defined.

Lemma report_then_poll_witness :
  exists written,
    snd (getSyncProgress (healthy_read 60000) "store-1"
           (fst (updateSyncProgress later_update "store-1" "in_progress"
                   50 200 None running)))
      = inl (mkStatus true None true None None (Some written)) /\
    orders_processed written = 50 /\ total_orders written = 200.
Proof.
  destruct (report_then_poll later_update (healthy_read 60000) "store-1"
              "in_progress" 50 200 None running running_row)
    as (written & Hres & _ & _ & _ & Hcur & Htot & _).
  - repeat split.
  - split; reflexivity.
  - apply unique_ids_one.
  - reflexivity.
  - intros x Hx _ Hne. change (running_row = x \/ False) in Hx.
    destruct Hx as [<- | []]. now contradiction Hne.
  - simpl. lia.
  - exists written. repeat split; assumption.
Defined.

Lemma start_then_poll_witness :
  snd (getSyncProgress (healthy_read 60000) "store-1"
         (fst (updateSyncProgress later_update "store-1" "in_progress"
                 0 0 None finished)))
    = inl (mkStatus true None true None None
             (Some (inserted_row later_update "store-1" "in_progress" 0 0 None
                      finished))).
Proof.
  pose proof (start_then_poll later_update (healthy_read 60000) "store-1"
                "in_progress" 0 0 None finished) as H.
  cbv zeta in H. apply H.
  - repeat split.
  - split; reflexivity.
  - reflexivity.
  - intros x Hx _. change (done_row = x \/ False) in Hx.
    destruct Hx as [<- | []]. simpl. lia.
  - simpl. lia.
Defined.

Lemma update_rewrites_one_row_witness :
  exists l1 l2 r',
    rows_of (fst (updateSyncProgress later_update "store-1" "in_progress"
                    50 200 (Some "") running)) = l1 ++ r' :: l2 /\
    notes r' = None /\ orders_processed r' = 50 /\
    started_at r' = started_at running_row.
Proof.
  destruct (update_rewrites_one_row later_update "store-1" "in_progress" 50 200
              (Some "") running running_row)
    as (l1 & l2 & r' & _ & Hafter & (_ & Hstart & _) & _ & _ & Hcur & _ & _ & _ & Hnote).
  - repeat split.
  - apply unique_ids_one.
  - reflexivity.
  - exists l1, l2, r'. split; [exact Hafter |].
    split; [apply Hnote; now right |]. split; [exact Hcur | exact Hstart].
Defined.

Lemma history_best_effort_witness :
  exists entry,
    sync_history
      (fst (recordSyncHistory 10 Healthy "store-1" 120 40 "success" (Some "")
              (mkHistoryWorld 0 []))) = [entry] /\
    error_message entry = None.
Proof.
  destruct (history_best_effort 10 Healthy "store-1" 120 40 "success" (Some "")
              (mkHistoryWorld 0 [])) as (_ & _ & Hnull & _).
  apply Hnull; [now right | reflexivity].
Defined.

Module ProductsRuns.

Import Products ProductsScenario.

Lemma default_filters_show_all_witness :
  filteredProducts verbatim is_prefix (loaded fetched initial)
    = formattedProducts fetched.
Proof.
  apply (ProductsFacts.default_filters_show_all verbatim is_prefix
           (loaded fetched initial)); reflexivity.
Defined.

Lemma placeholder_filters_witness :
  filteredProducts verbatim is_prefix
    (setSelectedStoreView "SE Website" (loaded fetched initial)) = [].
Proof.
  apply (ProductsFacts.placeholder_filters verbatim is_prefix fetched initial
           "SE Website"); discriminate.
Defined.

Lemma handleSort_clicks_witness :
  handleSort "price" (handleSort "price" (handleSort "price" initial))
    = handleSort "price" initial.
Proof.
  apply (ProductsFacts.handleSort_clicks verbatim is_prefix "price" "name"
           (handleSort "price" initial)).
  reflexivity.
Defined.

End ProductsRuns.
